(** * Pytorch-DCTTS, [module.py]: convolution and highway layers

    A shallow embedding of the three layers of [module.py]
    ([NonCausalConv1d], [CausalConv1d], [Highway]) together with the part
    of the tensor library they call: [nn.Conv1d], basic slicing,
    [contiguous], [F.sigmoid] and the broadcasting operators [*], [+] and
    [1 - t].

    Integers that the Python code computes with (channel counts, kernel
    size, dilation, padding) are [Z]; tensor sizes and indices are [nat].
    Tensor entries live in an arbitrary scalar type with uninterpreted
    arithmetic: no algebraic law is assumed, so every statement below holds
    for any rounding behaviour of the floating-point operations. *)

From Stdlib Require Import ZArith List Bool Arith Lia.
From Stdlib Require Import RelationClasses Morphisms.
Import ListNotations.

Set Implicit Arguments.

(** ** Scalars *)

(** The entries of a tensor and the operations the layers apply to them. *)
Class Scalar (R : Type) : Type := {
  szero : R;
  sone : R;
  sadd : R -> R -> R;
  ssub : R -> R -> R;
  smul : R -> R -> R;
  sigmoid : R -> R
}.

(** ** Errors *)

(** The errors the tensor library raises on the paths the layers use. *)
Inductive TorchError : Type :=
| InvalidConvArgument  (* kernel, stride or dilation below 1, negative padding or channel count *)
| ChannelMismatch      (* input channels differ from the weight's *)
| KernelTooLarge       (* padded input shorter than the dilated kernel *)
| BroadcastMismatch.   (* operands of an element-wise operator do not broadcast *)

Inductive Result (A : Type) : Type :=
| Ok (a : A)
| Err (e : TorchError).

Arguments Ok {A} a.
Arguments Err {A} e.

Definition bind {A B : Type} (r : Result A) (k : A -> Result B) : Result B :=
  match r with
  | Ok a => k a
  | Err e => Err e
  end.

Notation "x <- r ;; k" := (bind r (fun x => k))
  (at level 61, r at next level, right associativity).

(** ** Python slices *)

(** A slice bound [i] on an axis of length [len], as [slice.indices]
    resolves it for step 1: a negative bound counts from the end, and the
    result is clamped to [0 .. len]. *)
Definition slice_index (len : nat) (i : Z) : nat :=
  if (i <? 0)%Z
  then Z.to_nat (Z.max 0 (Z.of_nat len + i))
  else Z.to_nat (Z.min i (Z.of_nat len)).

(** First index and length of [start:stop] on an axis of length [len]. *)
Definition slice_range (len : nat) (start stop : option Z) : nat * nat :=
  let lo := match start with Some i => slice_index len i | None => 0 end in
  let hi := match stop with Some i => slice_index len i | None => len end in
  (lo, hi - lo).

(** ** Broadcasting *)

(** Size of one axis of the result of an element-wise operator. *)
Definition broadcast_dim (a b : nat) : option nat :=
  if a =? b then Some a
  else if a =? 1 then Some b
  else if b =? 1 then Some a
  else None.

(** The index an operand is read at along an axis of the result. *)
Definition bidx (size i : nat) : nat := if size =? 1 then 0 else i.

Section Tensors.

Context {R : Type} {SR : Scalar R}.

(** ** Tensors *)

(** A 3-axis tensor (batch, channel, sequence position): its sizes and its
    entries. Only the entries at indices below the sizes are meaningful. *)
Record Tensor : Type := mkTensor {
  size0 : nat;
  size1 : nat;
  size2 : nat;
  item : nat -> nat -> nat -> R
}.

Definition shape (x : Tensor) : nat * nat * nat := (size0 x, size1 x, size2 x).

(** The entries as nested lists, batch-major. *)
Definition to_list (x : Tensor) : list (list (list R)) :=
  map (fun n => map (fun c => map (fun t => item x n c t) (seq 0 (size2 x)))
                    (seq 0 (size1 x)))
      (seq 0 (size0 x)).

(** Two tensors are the same when they have the same sizes and the same
    entries at every index below them. *)
Definition tensor_eq (x y : Tensor) : Prop :=
  shape x = shape y /\
  forall n c t, n < size0 x -> c < size1 x -> t < size2 x ->
    item x n c t = item y n c t.

Definition result_eq (r1 r2 : Result Tensor) : Prop :=
  match r1, r2 with
  | Ok y1, Ok y2 => tensor_eq y1 y2
  | Err e1, Err e2 => e1 = e2
  | _, _ => False
  end.

(** [x[:, start:stop, :]] *)
Definition slice1 (start stop : option Z) (x : Tensor) : Tensor :=
  let '(lo, len) := slice_range (size1 x) start stop in
  mkTensor (size0 x) len (size2 x) (fun n c t => item x n (lo + c) t).

(** [x[:, :, start:stop]] *)
Definition slice2 (start stop : option Z) (x : Tensor) : Tensor :=
  let '(lo, len) := slice_range (size2 x) start stop in
  mkTensor (size0 x) (size1 x) len (fun n c t => item x n c (lo + t)).

(** [x.contiguous()]: the same values in a fresh dense buffer. *)
Definition contiguous (x : Tensor) : Tensor :=
  mkTensor (size0 x) (size1 x) (size2 x) (item x).

(** An element-wise unary operation. *)
Definition tmap (f : R -> R) (x : Tensor) : Tensor :=
  mkTensor (size0 x) (size1 x) (size2 x) (fun n c t => f (item x n c t)).

(** An element-wise binary operation with broadcasting. *)
Definition broadcast2 (f : R -> R -> R) (a b : Tensor) : Result Tensor :=
  match broadcast_dim (size0 a) (size0 b),
        broadcast_dim (size1 a) (size1 b),
        broadcast_dim (size2 a) (size2 b) with
  | Some d0, Some d1, Some d2 =>
      Ok (mkTensor d0 d1 d2 (fun n c t =>
            f (item a (bidx (size0 a) n) (bidx (size1 a) c) (bidx (size2 a) t))
              (item b (bidx (size0 b) n) (bidx (size1 b) c) (bidx (size2 b) t))))
  | _, _, _ => Err BroadcastMismatch
  end.

(** [F.sigmoid(x)] *)
Definition F_sigmoid (x : Tensor) : Tensor := tmap sigmoid x.

(** [a * b] *)
Definition tmul (a b : Tensor) : Result Tensor := broadcast2 smul a b.

(** [a + b] *)
Definition tadd (a b : Tensor) : Result Tensor := broadcast2 sadd a b.

(** [s - x] for a Python number [s] *)
Definition rsub (s : R) (x : Tensor) : Tensor := tmap (fun v => ssub s v) x.

(** [F.pad(x, (left, 0))]: [left] zeros before every sequence. *)
Definition pad_left (left : nat) (x : Tensor) : Tensor :=
  mkTensor (size0 x) (size1 x) (left + size2 x)
    (fun n c j => if j <? left then szero else item x n c (j - left)).

(** ** [nn.Conv1d] *)

(** Entry [j] of sequence [(n, ci)] of [x] after [p] zeros were put on both
    of its sides. *)
Definition padded_item (x : Tensor) (p n ci j : nat) : R :=
  if j <? p then szero
  else if j - p <? size2 x then item x n ci (j - p)
  else szero.

(** One output entry of a cross-correlation: the bias plus, over the input
    channels [ci < cin] and the kernel taps [k < K], the weight times the
    input at [start + k * d]. The order of the additions is one fixed
    choice; nothing below depends on it. *)
Definition conv_sum (w : nat -> nat -> R) (b : R) (inp : nat -> nat -> R)
    (cin K d start : nat) : R :=
  fold_left
    (fun acc ci =>
       fold_left
         (fun acc' k => sadd acc' (smul (w ci k) (inp ci (start + k * d))))
         (seq 0 K) acc)
    (seq 0 cin) b.

(** The module [nn.Conv1d(in_channels, out_channels, kernel_size, stride,
    padding, dilation)] with its parameters: [weight] of shape
    (out_channels, in_channels, kernel_size) and [bias] of shape
    (out_channels). *)
Record Conv1d : Type := mkConv1d {
  in_channels : Z;
  out_channels : Z;
  kernel_size : Z;
  stride : Z;
  padding : Z;
  dilation : Z;
  weight : nat -> nat -> nat -> R;
  bias : nat -> R
}.

Definition conv_args_ok (c : Conv1d) : bool :=
  ((0 <=? in_channels c) && (0 <=? out_channels c) && (1 <=? kernel_size c)
   && (1 <=? stride c) && (0 <=? padding c) && (1 <=? dilation c))%Z.

(** Length of the output sequence for an input of length [len]. *)
Definition conv_out_len (c : Conv1d) (len : nat) : Z :=
  ((Z.of_nat len + 2 * padding c - dilation c * (kernel_size c - 1) - 1)
     / stride c + 1)%Z.

(** The argument checks are made here, at the call, for all of them. The
    model is for positive channel counts and sequences of at least one
    position; what the library does with a zero channel count or an empty
    sequence is not modelled, and no property below is stated there. *)
Definition Conv1d_forward (c : Conv1d) (x : Tensor) : Result Tensor :=
  if negb (conv_args_ok c) then Err InvalidConvArgument
  else if negb (Z.of_nat (size1 x) =? in_channels c)%Z then Err ChannelMismatch
  else if (Z.of_nat (size2 x) + 2 * padding c
             <? dilation c * (kernel_size c - 1) + 1)%Z
  then Err KernelTooLarge
  else
    Ok (mkTensor (size0 x) (Z.to_nat (out_channels c))
          (Z.to_nat (conv_out_len c (size2 x)))
          (fun n co t =>
             conv_sum (weight c co) (bias c co)
               (padded_item x (Z.to_nat (padding c)) n)
               (Z.to_nat (in_channels c)) (Z.to_nat (kernel_size c))
               (Z.to_nat (dilation c)) (t * Z.to_nat (stride c)))).

(** ** The layers of [module.py] *)

(** What every layer offers: [forward]. *)
Class Module (M : Type) : Type := forward : M -> Tensor -> Result Tensor.

(** *** [NonCausalConv1d] *)

Record NonCausalConv1d : Type := mkNonCausalConv1d {
  nc_conv : Conv1d
}.

(** [__init__]; [w] and [b] are the values the convolution's parameters
    hold. *)
Definition NonCausalConv1d_init (in_channels out_channels kernel_size dilation : Z)
    (w : nat -> nat -> nat -> R) (b : nat -> R) : NonCausalConv1d :=
  let padding := ((kernel_size - 1) * dilation / 2)%Z in
  mkNonCausalConv1d
    (mkConv1d in_channels out_channels kernel_size 1 padding dilation w b).

Definition NonCausalConv1d_forward (self : NonCausalConv1d) (x : Tensor)
    : Result Tensor :=
  Conv1d_forward (nc_conv self) x.

(** *** [CausalConv1d] *)

Record CausalConv1d : Type := mkCausalConv1d {
  c_padding : Z;
  c_conv : Conv1d
}.

Definition CausalConv1d_init (in_channels out_channels kernel_size dilation : Z)
    (w : nat -> nat -> nat -> R) (b : nat -> R) : CausalConv1d :=
  let padding := ((kernel_size - 1) * dilation)%Z in
  mkCausalConv1d padding
    (mkConv1d in_channels out_channels kernel_size 1 padding dilation w b).

Definition CausalConv1d_forward (self : CausalConv1d) (x : Tensor)
    : Result Tensor :=
  x' <- Conv1d_forward (c_conv self) x ;;
  if (0 <? c_padding self)%Z
  then Ok (contiguous (slice2 None (Some (- c_padding self)%Z) x'))
  else Ok x'.

(** *** [Highway] *)

(** The inner convolution of a highway layer: one of the two above. *)
Inductive HighwayConv : Type :=
| HCausal (conv : CausalConv1d)
| HNonCausal (conv : NonCausalConv1d).

Definition HighwayConv_forward (conv : HighwayConv) (x : Tensor)
    : Result Tensor :=
  match conv with
  | HCausal c => CausalConv1d_forward c x
  | HNonCausal c => NonCausalConv1d_forward c x
  end.

Record Highway : Type := mkHighway {
  hw_d : Z;
  hw_conv : HighwayConv
}.

Definition Highway_init (hidden kernel_size dilation : Z) (causal : bool)
    (w : nat -> nat -> nat -> R) (b : nat -> R) : Highway :=
  mkHighway hidden
    (if causal
     then HCausal (CausalConv1d_init hidden (2 * hidden) kernel_size dilation w b)
     else HNonCausal (NonCausalConv1d_init hidden (2 * hidden) kernel_size dilation w b)).

Definition Highway_forward (self : Highway) (x : Tensor) : Result Tensor :=
  Hout <- HighwayConv_forward (hw_conv self) x ;;
  let H1 := slice1 None (Some (hw_d self)) Hout in
  let H2 := slice1 (Some (hw_d self)) None Hout in
  gated <- tmul (F_sigmoid H1) H2 ;;
  carried <- tmul (rsub sone (F_sigmoid H1)) x ;;
  tadd gated carried.

(** ** The causal convolution as specified *)

(** The specified algorithm, for the arguments [CausalConv1d] is built
    from: [(kernel_size - 1) * dilation] zeros before the sequence and none
    after it, then the unit-stride dilated convolution with no padding of
    its own. *)
Definition left_pad_conv (in_channels out_channels kernel_size dilation : Z)
    (w : nat -> nat -> nat -> R) (b : nat -> R) (x : Tensor) : Result Tensor :=
  Conv1d_forward
    (mkConv1d in_channels out_channels kernel_size 1 0 dilation w b)
    (pad_left (Z.to_nat ((kernel_size - 1) * dilation)) x).

(** ** Layers with identical parameters *)

(** Same arguments, same weight and same bias entries. *)
Definition Conv1d_eq (c c' : Conv1d) : Prop :=
  in_channels c = in_channels c' /\ out_channels c = out_channels c' /\
  kernel_size c = kernel_size c' /\ stride c = stride c' /\
  padding c = padding c' /\ dilation c = dilation c' /\
  (forall co ci k,
      co < Z.to_nat (out_channels c) -> ci < Z.to_nat (in_channels c) ->
      k < Z.to_nat (kernel_size c) ->
      weight c co ci k = weight c' co ci k) /\
  (forall co, co < Z.to_nat (out_channels c) -> bias c co = bias c' co).

Definition NonCausalConv1d_eq (l l' : NonCausalConv1d) : Prop :=
  Conv1d_eq (nc_conv l) (nc_conv l').

Definition CausalConv1d_eq (l l' : CausalConv1d) : Prop :=
  c_padding l = c_padding l' /\ Conv1d_eq (c_conv l) (c_conv l').

Definition HighwayConv_eq (c c' : HighwayConv) : Prop :=
  match c, c' with
  | HCausal l, HCausal l' => CausalConv1d_eq l l'
  | HNonCausal l, HNonCausal l' => NonCausalConv1d_eq l l'
  | _, _ => False
  end.

Definition Highway_eq (h h' : Highway) : Prop :=
  hw_d h = hw_d h' /\ HighwayConv_eq (hw_conv h) (hw_conv h').

(** ** Agreement on one batch element *)

(** [x] and [y] have the same shape and the same entries in batch element
    [n] (read at [bidx], as an operand of an element-wise operator is). *)
Definition batch_eq (n : nat) (x y : Tensor) : Prop :=
  shape x = shape y /\
  forall c t, c < size1 x -> t < size2 x ->
    item x (bidx (size0 x) n) c t = item y (bidx (size0 x) n) c t.

Definition result_batch_eq (n : nat) (r1 r2 : Result Tensor) : Prop :=
  match r1, r2 with
  | Ok y1, Ok y2 => batch_eq n y1 y2
  | Err e1, Err e2 => e1 = e2
  | _, _ => False
  end.

(** Two calls raise the same error, or return tensors of one shape with
    the same entries in batch element [n]. *)
Definition results_agree_on_batch (n : nat) (r1 r2 : Result Tensor) : Prop :=
  match r1, r2 with
  | Ok y1, Ok y2 =>
      shape y1 = shape y2 /\
      forall c t, n < size0 y1 -> c < size1 y1 -> t < size2 y1 ->
        item y1 n c t = item y2 n c t
  | Err e1, Err e2 => e1 = e2
  | _, _ => False
  end.

#[export] Instance NonCausalConv1d_Module : Module NonCausalConv1d :=
  NonCausalConv1d_forward.
#[export] Instance CausalConv1d_Module : Module CausalConv1d :=
  CausalConv1d_forward.
#[export] Instance Highway_Module : Module Highway := Highway_forward.

End Tensors.

(** ** An integer instance *)

(** Integer scalars, to run the layers on small inputs. The gate function
    is a threshold standing in for the logistic function. *)
#[export] Instance Scalar_Z : Scalar Z := {|
  szero := 0%Z;
  sone := 1%Z;
  sadd := Z.add;
  ssub := Z.sub;
  smul := Z.mul;
  sigmoid := fun z => if (z <? 0)%Z then 0%Z else 1%Z
|}.

(** A tensor of integers whose entry at (n, c, t) is [100 n + 10 c + t + 1]. *)
Definition ramp (b c l : nat) : Tensor (R := Z) :=
  mkTensor b c l (fun n ch t => Z.of_nat (100 * n + 10 * ch + t + 1)).

(** [ramp] with the entries from position [p] on replaced by 0. *)
Definition ramp_cut (b c l p : nat) : Tensor (R := Z) :=
  mkTensor b c l
    (fun n ch t => if t <? p then Z.of_nat (100 * n + 10 * ch + t + 1) else 0%Z).

(** Weights and bias for the examples. *)
(** [ramp] with the entries at the positions [keep] rejects replaced by 0. *)
Definition ramp_keep (b c l : nat) (keep : nat -> bool) : Tensor (R := Z) :=
  mkTensor b c l
    (fun n ch t => if keep t then Z.of_nat (100 * n + 10 * ch + t + 1) else 0%Z).

(** [ramp] with the entries of all batch elements but the first replaced
    by 0. *)
Definition ramp_batch0 (b c l : nat) : Tensor (R := Z) :=
  mkTensor b c l
    (fun n ch t => if n =? 0 then Z.of_nat (100 * n + 10 * ch + t + 1) else 0%Z).

Definition w_ex (co ci k : nat) : Z := Z.of_nat (co + 2 * ci + 3 * k + 1).
Definition b_ex (co : nat) : Z := Z.of_nat co.

(** * Properties *)

Section Properties.

Context {R : Type} {SR : Scalar R}.

Implicit Types x y : Tensor (R := R).

(** ** Arithmetic of the padding *)

Lemma causal_padding_nat (K D : Z) :
  (1 <= K)%Z -> (1 <= D)%Z ->
  Z.to_nat ((K - 1) * D) = (Z.to_nat K - 1) * Z.to_nat D.
Proof.
  intros HK HD.
  rewrite Z2Nat.inj_mul by lia.
  rewrite Z2Nat.inj_sub by lia.
  reflexivity.
Qed.

Lemma even_half_twice (m : Z) : Z.even m = true -> (2 * (m / 2) = m)%Z.
Proof.
  intros Hev. apply Z.even_spec in Hev. destruct Hev as [q ->].
  rewrite (Z.mul_comm 2 q), Z.div_mul by lia. lia.
Qed.

Lemma odd_half_twice (m : Z) : Z.odd m = true -> (2 * (m / 2) = m - 1)%Z.
Proof.
  intros Hodd. apply Z.odd_spec in Hodd. destruct Hodd as [q ->].
  replace (2 * q + 1)%Z with (1 + q * 2)%Z by lia.
  rewrite Z.div_add by lia. change (1 / 2)%Z with 0%Z. lia.
Qed.

(** ** Slices *)

Lemma slice_range_drop_last (len : nat) (p : Z) :
  (0 < p)%Z -> slice_range len None (Some (- p)%Z) = (0, len - Z.to_nat p).
Proof.
  intros Hp. unfold slice_range, slice_index.
  destruct (Z.ltb_spec (- p) 0) as [_ | Hge]; [| lia].
  f_equal. lia.
Qed.

Lemma slice_range_first_half (h : nat) :
  slice_range (2 * h) None (Some (Z.of_nat h)) = (0, h).
Proof.
  unfold slice_range, slice_index.
  destruct (Z.ltb_spec (Z.of_nat h) 0) as [Hlt | _]; [lia |].
  f_equal. lia.
Qed.

Lemma slice_range_second_half (h : nat) :
  slice_range (2 * h) (Some (Z.of_nat h)) None = (h, h).
Proof.
  unfold slice_range, slice_index.
  destruct (Z.ltb_spec (Z.of_nat h) 0) as [Hlt | _]; [lia |].
  f_equal; lia.
Qed.

(** ** Broadcasting *)

Lemma broadcast_dim_same (a : nat) : broadcast_dim a a = Some a.
Proof. unfold broadcast_dim. now rewrite Nat.eqb_refl. Qed.

Lemma bidx_below (size i : nat) : i < size -> bidx size i = i.
Proof.
  unfold bidx. intros Hi.
  destruct (Nat.eqb_spec size 1) as [-> | _]; lia.
Qed.

Lemma broadcast_dim_pred_none (l : nat) :
  broadcast_dim (l - 1) l = None <-> 3 <= l.
Proof.
  unfold broadcast_dim.
  destruct (Nat.eqb_spec (l - 1) l), (Nat.eqb_spec (l - 1) 1),
    (Nat.eqb_spec l 1); split; intros; try discriminate; try lia; reflexivity.
Qed.

(** ** The convolution primitive *)

Lemma fold_left_ext_in (A B : Type) (f g : A -> B -> A) (l : list B) (a : A) :
  (forall acc e, In e l -> f acc e = g acc e) ->
  fold_left f l a = fold_left g l a.
Proof.
  revert a. induction l as [| e l IH]; intros a Hfg; simpl.
  - reflexivity.
  - rewrite Hfg by (left; reflexivity).
    apply IH. intros acc e' Hin. apply Hfg. right. exact Hin.
Qed.

(** An output entry depends on the weights of its channel and on the input
    entries under the kernel taps only. *)
Lemma conv_sum_ext (w w' : nat -> nat -> R) (b : R) (inp inp' : nat -> nat -> R)
    (cin K d start : nat) :
  (forall ci k, ci < cin -> k < K -> w ci k = w' ci k) ->
  (forall ci k, ci < cin -> k < K ->
     inp ci (start + k * d) = inp' ci (start + k * d)) ->
  conv_sum w b inp cin K d start = conv_sum w' b inp' cin K d start.
Proof.
  intros Hw Hinp. unfold conv_sum.
  apply fold_left_ext_in. intros acc ci Hci.
  apply in_seq in Hci.
  apply fold_left_ext_in. intros acc' k Hk.
  apply in_seq in Hk.
  rewrite Hw, Hinp by lia. reflexivity.
Qed.

(** What [nn.Conv1d] returns once its checks pass. *)
Lemma Conv1d_forward_ok (c : Conv1d) x :
  conv_args_ok c = true ->
  Z.of_nat (size1 x) = in_channels c ->
  (dilation c * (kernel_size c - 1) + 1
     <= Z.of_nat (size2 x) + 2 * padding c)%Z ->
  Conv1d_forward c x =
    Ok (mkTensor (size0 x) (Z.to_nat (out_channels c))
          (Z.to_nat (conv_out_len c (size2 x)))
          (fun n co t =>
             conv_sum (weight c co) (bias c co)
               (padded_item x (Z.to_nat (padding c)) n)
               (Z.to_nat (in_channels c)) (Z.to_nat (kernel_size c))
               (Z.to_nat (dilation c)) (t * Z.to_nat (stride c)))).
Proof.
  intros Hargs Hch Hlen. unfold Conv1d_forward.
  rewrite Hargs. cbn [negb].
  apply Z.eqb_eq in Hch. rewrite Hch. cbn [negb].
  destruct (Z.ltb_spec (Z.of_nat (size2 x) + 2 * padding c)
              (dilation c * (kernel_size c - 1) + 1)) as [Hlt | _]; [lia |].
  reflexivity.
Qed.

Lemma conv_args_ok_init (i o K p D : Z) (w : nat -> nat -> nat -> R)
    (b : nat -> R) :
  (0 <= i)%Z -> (0 <= o)%Z -> (1 <= K)%Z -> (0 <= p)%Z -> (1 <= D)%Z ->
  conv_args_ok (mkConv1d i o K 1 p D w b) = true.
Proof.
  intros Hi Ho HK Hp HD. unfold conv_args_ok. simpl.
  repeat (apply andb_true_intro; split); apply Z.leb_le; lia.
Qed.

(** ** [CausalConv1d] *)

(** The result of the causal layer on a valid configuration: the input's
    length, and at position [t] the kernel laid over the padded input from
    [t] on. *)
Lemma CausalConv1d_forward_ok (i o K D : Z) (w : nat -> nat -> nat -> R)
    (b : nat -> R) x :
  (1 <= K)%Z -> (1 <= D)%Z -> (0 <= o)%Z ->
  Z.of_nat (size1 x) = i -> 1 <= size2 x ->
  exists y,
    CausalConv1d_forward (CausalConv1d_init i o K D w b) x = Ok y /\
    size0 y = size0 x /\ size1 y = Z.to_nat o /\ size2 y = size2 x /\
    forall n co t,
      item y n co t =
        conv_sum (w co) (b co)
          (padded_item x ((Z.to_nat K - 1) * Z.to_nat D) n)
          (size1 x) (Z.to_nat K) (Z.to_nat D) t.
Proof.
  intros HK HD Ho Hi HL.
  assert (Hp : (0 <= (K - 1) * D)%Z) by nia.
  unfold CausalConv1d_forward, CausalConv1d_init.
  cbn [c_conv c_padding].
  rewrite Conv1d_forward_ok;
    [| apply conv_args_ok_init; lia | exact Hi | cbn [dilation kernel_size padding]; nia].
  cbn [bind in_channels out_channels kernel_size stride padding dilation
       weight bias].
  unfold conv_out_len.
  cbn [in_channels out_channels kernel_size stride padding dilation].
  rewrite Z.div_1_r.
  rewrite causal_padding_nat by assumption.
  replace (Z.to_nat i) with (size1 x) by lia.
  change (Z.to_nat 1) with 1.
  destruct (Z.ltb_spec 0 ((K - 1) * D)) as [Hpos | Hzero].
  - eexists. split; [reflexivity |].
    unfold contiguous, slice2. cbn [size0 size1 size2 item].
    rewrite slice_range_drop_last by assumption.
    cbn [size0 size1 size2 item].
    split; [reflexivity |]. split; [reflexivity |]. split.
    + lia.
    + intros n co t. rewrite Nat.add_0_l, Nat.mul_1_r. reflexivity.
  - eexists. split; [reflexivity |].
    cbn [size0 size1 size2 item].
    split; [reflexivity |]. split; [reflexivity |]. split.
    + lia.
    + intros n co t. rewrite Nat.mul_1_r. reflexivity.
Qed.

(** C1: for kernel_size K >= 1 and dilation D >= 1 and an input of shape
    (batch, in_channels, seq_len) with seq_len >= 1, [CausalConv1d.forward]
    returns a tensor with the input's sequence length, whatever the parity
    of (K-1)*D, and with out_channels channels. *)
Theorem CausalConv1d_forward_shape (i o K D : Z) (w : nat -> nat -> nat -> R)
    (b : nat -> R) x :
  (1 <= K)%Z -> (1 <= D)%Z -> (1 <= i)%Z -> (1 <= o)%Z ->
  Z.of_nat (size1 x) = i -> 1 <= size2 x ->
  exists y,
    CausalConv1d_forward (CausalConv1d_init i o K D w b) x = Ok y /\
    size0 y = size0 x /\ Z.of_nat (size1 y) = o /\ size2 y = size2 x.
Proof.
  intros HK HD _ Ho Hi HL.
  destruct (@CausalConv1d_forward_ok i o K D w b x)
    as (y & Hy & H0 & H1 & H2 & _); try assumption; try lia.
  exists y. split; [exact Hy |].
  repeat split; try assumption. lia.
Qed.

(** The kernel laid over the causally padded input from position [t] on
    reads no input entry after [t]. *)
Lemma causal_conv_sum_agree (K D : Z) (wc : nat -> nat -> R) (bc : R)
    x x' (n cin t : nat) :
  (1 <= K)%Z -> (1 <= D)%Z ->
  t < size2 x -> t < size2 x' ->
  (forall c s, c < cin -> s <= t -> item x n c s = item x' n c s) ->
  conv_sum wc bc (padded_item x ((Z.to_nat K - 1) * Z.to_nat D) n)
    cin (Z.to_nat K) (Z.to_nat D) t =
  conv_sum wc bc (padded_item x' ((Z.to_nat K - 1) * Z.to_nat D) n)
    cin (Z.to_nat K) (Z.to_nat D) t.
Proof.
  intros HK HD Ht Ht' Hagree.
  apply conv_sum_ext; [reflexivity |].
  intros ci k Hci Hk. unfold padded_item.
  assert (Hle : k * Z.to_nat D <= (Z.to_nat K - 1) * Z.to_nat D) by nia.
  destruct (Nat.ltb_spec (t + k * Z.to_nat D) ((Z.to_nat K - 1) * Z.to_nat D))
    as [_ | Hge]; [reflexivity |].
  destruct (Nat.ltb_spec (t + k * Z.to_nat D - (Z.to_nat K - 1) * Z.to_nat D)
              (size2 x)) as [_ | Hout]; [| lia].
  destruct (Nat.ltb_spec (t + k * Z.to_nat D - (Z.to_nat K - 1) * Z.to_nat D)
              (size2 x')) as [_ | Hout]; [| lia].
  apply Hagree; lia.
Qed.

(** C2: two inputs that agree at all positions <= t (on every batch
    element and channel) give outputs of [CausalConv1d.forward] that agree
    at position t; so changing the input at a position p > t leaves the
    output at t as it was. *)
Theorem CausalConv1d_causal (i o K D : Z) (w : nat -> nat -> nat -> R)
    (b : nat -> R) x x' (t : nat) :
  (1 <= K)%Z -> (1 <= D)%Z -> (1 <= i)%Z -> (1 <= o)%Z ->
  Z.of_nat (size1 x) = i ->
  size0 x' = size0 x -> size1 x' = size1 x ->
  t < size2 x -> t < size2 x' ->
  (forall n c s, n < size0 x -> c < size1 x -> s <= t ->
     item x n c s = item x' n c s) ->
  exists y y',
    CausalConv1d_forward (CausalConv1d_init i o K D w b) x = Ok y /\
    CausalConv1d_forward (CausalConv1d_init i o K D w b) x' = Ok y' /\
    forall n co, n < size0 y -> co < size1 y ->
      item y n co t = item y' n co t.
Proof.
  intros HK HD _ Ho Hi Hb Hc Ht Ht' Hagree.
  destruct (@CausalConv1d_forward_ok i o K D w b x)
    as (y & Hy & H0 & _ & _ & Hit); try assumption; try lia.
  destruct (@CausalConv1d_forward_ok i o K D w b x')
    as (y' & Hy' & _ & _ & _ & Hit'); try assumption; try lia.
  exists y, y'. split; [exact Hy |]. split; [exact Hy' |].
  intros n co Hn _.
  rewrite Hit, Hit', Hc.
  apply causal_conv_sum_agree; try assumption.
  intros c s Hcs Hs. apply Hagree; lia.
Qed.

(** Zeros on both sides of [x], or on no side of [x] with the zeros put
    before it: the same sequence. *)
Lemma padded_item_pad_left x (p n ci j : nat) :
  padded_item (pad_left p x) 0 n ci j = padded_item x p n ci j.
Proof.
  unfold padded_item, pad_left. cbn [size2 item].
  rewrite Nat.sub_0_r.
  destruct (Nat.ltb_spec j 0) as [Hj | _]; [lia |].
  destruct (Nat.ltb_spec j p) as [Hlt | Hge].
  - destruct (j <? p + size2 x); reflexivity.
  - destruct (Nat.ltb_spec j (p + size2 x)), (Nat.ltb_spec (j - p) (size2 x));
      try reflexivity; lia.
Qed.

(** C7: padding with (K-1)*D zeros on both sides and dropping the last
    (K-1)*D outputs, as [CausalConv1d.forward] does, gives for every input
    with seq_len >= 1 the same tensor as the convolution of the input
    padded with (K-1)*D zeros on the left only. *)
Theorem CausalConv1d_forward_left_pad (i o K D : Z)
    (w : nat -> nat -> nat -> R) (b : nat -> R) x :
  (1 <= K)%Z -> (1 <= D)%Z -> (1 <= i)%Z -> (1 <= o)%Z ->
  Z.of_nat (size1 x) = i -> 1 <= size2 x ->
  exists y y',
    CausalConv1d_forward (CausalConv1d_init i o K D w b) x = Ok y /\
    left_pad_conv i o K D w b x = Ok y' /\
    tensor_eq y y'.
Proof.
  intros HK HD _ Ho Hi HL.
  assert (Hp : (0 <= (K - 1) * D)%Z) by nia.
  destruct (@CausalConv1d_forward_ok i o K D w b x)
    as (y & Hy & H0 & H1 & H2 & Hit); try assumption; try lia.
  exists y. eexists. split; [exact Hy |].
  unfold left_pad_conv. split.
  - apply Conv1d_forward_ok.
    + apply conv_args_ok_init; lia.
    + exact Hi.
    + unfold pad_left.
      cbn [dilation kernel_size padding size2]. nia.
  - unfold tensor_eq, conv_out_len, pad_left.
    cbn [in_channels out_channels kernel_size stride padding dilation
         weight bias size0 size1 size2 item shape].
    unfold shape. rewrite H0, H1, H2. cbn [size0 size1 size2 item]. split.
    + f_equal. rewrite Z.div_1_r. lia.
    + intros n co t _ _ _. rewrite Hit.
      change (Z.to_nat 1) with 1. rewrite Nat.mul_1_r.
      replace (Z.to_nat i) with (size1 x) by lia.
      apply conv_sum_ext; [reflexivity |].
      intros ci k _ _.
      rewrite causal_padding_nat by assumption.
      symmetry. apply (padded_item_pad_left x).
Qed.

(** ** [NonCausalConv1d] *)

(** The result of the non-causal layer on a valid configuration, when the
    padded input is long enough for the kernel. *)
Lemma NonCausalConv1d_forward_ok (i o K D : Z) (w : nat -> nat -> nat -> R)
    (b : nat -> R) x :
  (1 <= K)%Z -> (1 <= D)%Z -> (0 <= o)%Z ->
  Z.of_nat (size1 x) = i ->
  ((K - 1) * D + 1 <= Z.of_nat (size2 x) + 2 * ((K - 1) * D / 2))%Z ->
  exists y,
    NonCausalConv1d_forward (NonCausalConv1d_init i o K D w b) x = Ok y /\
    size0 y = size0 x /\ size1 y = Z.to_nat o /\
    size2 y =
      Z.to_nat (Z.of_nat (size2 x) + 2 * ((K - 1) * D / 2) - (K - 1) * D) /\
    forall n co t,
      item y n co t =
        conv_sum (w co) (b co)
          (padded_item x (Z.to_nat ((K - 1) * D / 2)) n)
          (size1 x) (Z.to_nat K) (Z.to_nat D) t.
Proof.
  intros HK HD Ho Hi Hlen.
  assert (Hp : (0 <= (K - 1) * D / 2)%Z) by (apply Z.div_pos; nia).
  unfold NonCausalConv1d_forward, NonCausalConv1d_init.
  cbn [nc_conv].
  rewrite Conv1d_forward_ok;
    [| apply conv_args_ok_init; lia | exact Hi
     | cbn [dilation kernel_size padding]; lia].
  unfold conv_out_len.
  cbn [in_channels out_channels kernel_size stride padding dilation
       weight bias].
  rewrite Z.div_1_r.
  replace (Z.to_nat i) with (size1 x) by lia.
  change (Z.to_nat 1) with 1.
  eexists. split; [reflexivity |].
  cbn [size0 size1 size2 item].
  split; [reflexivity |]. split; [reflexivity |]. split.
  - f_equal. lia.
  - intros n co t. rewrite Nat.mul_1_r. reflexivity.
Qed.

(** C5: for K >= 1 and D >= 1 with (K-1)*D even and an input of shape
    (batch, in_channels, seq_len) with seq_len >= 1,
    [NonCausalConv1d.forward] returns a tensor of shape
    (batch, out_channels, seq_len). *)
Theorem NonCausalConv1d_forward_shape_even (i o K D : Z)
    (w : nat -> nat -> nat -> R) (b : nat -> R) x :
  (1 <= K)%Z -> (1 <= D)%Z -> (1 <= i)%Z -> (1 <= o)%Z ->
  Z.even ((K - 1) * D) = true ->
  Z.of_nat (size1 x) = i -> 1 <= size2 x ->
  exists y,
    NonCausalConv1d_forward (NonCausalConv1d_init i o K D w b) x = Ok y /\
    size0 y = size0 x /\ Z.of_nat (size1 y) = o /\ size2 y = size2 x.
Proof.
  intros HK HD _ Ho Hev Hi HL.
  pose proof (even_half_twice _ Hev) as Hhalf.
  destruct (@NonCausalConv1d_forward_ok i o K D w b x)
    as (y & Hy & H0 & H1 & H2 & _); try assumption; try lia.
  exists y. split; [exact Hy |].
  repeat split; try assumption; lia.
Qed.

(** C6: for K >= 1 and D >= 1 with (K-1)*D odd and an input with
    seq_len >= 2 (from there on the padded input is as long as the dilated
    kernel), [NonCausalConv1d.forward] raises no error and returns a
    tensor whose sequence length is seq_len - 1. *)
Theorem NonCausalConv1d_forward_shape_odd (i o K D : Z)
    (w : nat -> nat -> nat -> R) (b : nat -> R) x :
  (1 <= K)%Z -> (1 <= D)%Z -> (1 <= i)%Z -> (1 <= o)%Z ->
  Z.odd ((K - 1) * D) = true ->
  Z.of_nat (size1 x) = i -> 2 <= size2 x ->
  exists y,
    NonCausalConv1d_forward (NonCausalConv1d_init i o K D w b) x = Ok y /\
    size0 y = size0 x /\ Z.of_nat (size1 y) = o /\
    size2 y = size2 x - 1 /\ size2 y <> size2 x.
Proof.
  intros HK HD _ Ho Hodd Hi HL.
  pose proof (odd_half_twice _ Hodd) as Hhalf.
  destruct (@NonCausalConv1d_forward_ok i o K D w b x)
    as (y & Hy & H0 & H1 & H2 & _); try assumption; try lia.
  exists y. split; [exact Hy |].
  repeat split; try assumption; lia.
Qed.

(** With (K-1)*D odd, a sequence of length 1 is too short for the
    convolution: the padded input has (K-1)*D entries and the dilated
    kernel spans (K-1)*D + 1. *)
Lemma NonCausalConv1d_forward_odd_too_short (i o K D : Z)
    (w : nat -> nat -> nat -> R) (b : nat -> R) x :
  (1 <= K)%Z -> (1 <= D)%Z -> (1 <= o)%Z ->
  Z.odd ((K - 1) * D) = true ->
  Z.of_nat (size1 x) = i -> size2 x = 1 ->
  NonCausalConv1d_forward (NonCausalConv1d_init i o K D w b) x
    = Err KernelTooLarge.
Proof.
  intros HK HD Ho Hodd Hi HL.
  pose proof (odd_half_twice _ Hodd) as Hhalf.
  assert (Hp : (0 <= (K - 1) * D / 2)%Z) by (apply Z.div_pos; nia).
  unfold NonCausalConv1d_forward, NonCausalConv1d_init, Conv1d_forward.
  cbn [nc_conv].
  rewrite conv_args_ok_init by lia.
  cbn [negb in_channels kernel_size padding dilation].
  apply Z.eqb_eq in Hi. rewrite Hi. cbn [negb].
  destruct (Z.ltb_spec (Z.of_nat (size2 x) + 2 * ((K - 1) * D / 2))
              (D * (K - 1) + 1)) as [_ | Hge]; [reflexivity | lia].
Qed.

(** ** [Highway] *)

(** The highway combination, entry by entry, when the inner convolution
    returns [2 * H] channels of the input's length. *)
Lemma Highway_forward_items (self : Highway) x Hout (H : nat) :
  hw_d self = Z.of_nat H ->
  size1 x = H ->
  HighwayConv_forward (hw_conv self) x = Ok Hout ->
  size0 Hout = size0 x -> size1 Hout = 2 * H -> size2 Hout = size2 x ->
  exists y,
    Highway_forward self x = Ok y /\
    shape y = shape x /\
    forall n c t, n < size0 x -> c < H -> t < size2 x ->
      item y n c t =
        sadd (smul (sigmoid (item Hout n c t)) (item Hout n (H + c) t))
             (smul (ssub sone (sigmoid (item Hout n c t))) (item x n c t)).
Proof.
  intros Hd Hc Hconv H0 H1 H2.
  unfold Highway_forward. rewrite Hconv, Hd. cbn [bind].
  destruct Hout as [b0 c0 l0 f]. cbn [size0 size1 size2] in H0, H1, H2.
  subst b0 c0 l0.
  unfold tmul, tadd, broadcast2, F_sigmoid, rsub, tmap, slice1.
  cbn [size0 size1 size2 item].
  rewrite slice_range_first_half, slice_range_second_half.
  cbn [size0 size1 size2 item].
  rewrite Hc, !broadcast_dim_same. cbn [bind size0 size1 size2 item].
  rewrite !broadcast_dim_same.
  eexists. split; [reflexivity |]. split.
  - unfold shape. cbn [size0 size1 size2]. rewrite Hc. reflexivity.
  - intros n c t Hn Hch Ht. cbn [size0 size1 size2 item].
    rewrite !(bidx_below Hn), !(bidx_below Hch), !(bidx_below Ht).
    rewrite Nat.add_0_l. reflexivity.
Qed.

(** Where the inner convolution keeps the sequence length (the causal
    layer, and the non-causal one with (K-1)*D even), [Highway.forward]
    returns, entry by entry, sigmoid(G) * T + (1 - sigmoid(G)) * x, where G
    is the first H and T the last H channels of the 2H-channel output of
    the inner convolution on x. *)
Theorem Highway_forward_formula (H K D : Z) (causal : bool)
    (w : nat -> nat -> nat -> R) (b : nat -> R) x :
  (1 <= H)%Z -> (1 <= K)%Z -> (1 <= D)%Z ->
  causal = true \/ Z.even ((K - 1) * D) = true ->
  Z.of_nat (size1 x) = H -> 1 <= size2 x ->
  exists Hout y,
    HighwayConv_forward (hw_conv (Highway_init H K D causal w b)) x = Ok Hout /\
    size1 Hout = 2 * size1 x /\
    Highway_forward (Highway_init H K D causal w b) x = Ok y /\
    shape y = shape x /\
    forall n c t, n < size0 x -> c < size1 x -> t < size2 x ->
      item y n c t =
        sadd (smul (sigmoid (item Hout n c t)) (item Hout n (size1 x + c) t))
             (smul (ssub sone (sigmoid (item Hout n c t))) (item x n c t)).
Proof.
  intros HH HK HD Hmode Hc HL.
  assert (Hconv : exists Hout,
             HighwayConv_forward (hw_conv (Highway_init H K D causal w b)) x
               = Ok Hout /\
             size0 Hout = size0 x /\ size1 Hout = 2 * size1 x /\
             size2 Hout = size2 x).
  { destruct causal; cbn [Highway_init hw_conv HighwayConv_forward].
    - destruct (@CausalConv1d_forward_ok H (2 * H) K D w b x)
        as (Hout & HHout & H0 & H1 & H2 & _); try assumption; try lia.
      exists Hout. split; [exact HHout |].
      repeat split; try assumption. lia.
    - destruct Hmode as [Hmode | Hev]; [discriminate |].
      pose proof (even_half_twice _ Hev) as Hhalf.
      destruct (@NonCausalConv1d_forward_ok H (2 * H) K D w b x)
        as (Hout & HHout & H0 & H1 & H2 & _); try assumption; try lia.
      exists Hout. split; [exact HHout |].
      repeat split; try assumption; lia. }
  destruct Hconv as (Hout & HHout & H0 & H1 & H2).
  destruct (@Highway_forward_items (Highway_init H K D causal w b) x Hout
              (size1 x)) as (y & Hy & Hsh & Hit); try assumption.
  - cbn [Highway_init hw_d]. lia.
  - reflexivity.
  - exists Hout, y. repeat split; assumption.
Qed.

(** C9: a [Highway] layer built with causal=True is causal: two inputs
    that agree at all positions <= t give outputs that agree at position
    t. *)
Theorem Highway_causal (H K D : Z) (w : nat -> nat -> nat -> R)
    (b : nat -> R) x x' (t : nat) :
  (1 <= H)%Z -> (1 <= K)%Z -> (1 <= D)%Z ->
  Z.of_nat (size1 x) = H ->
  size0 x' = size0 x -> size1 x' = size1 x ->
  t < size2 x -> t < size2 x' ->
  (forall n c s, n < size0 x -> c < size1 x -> s <= t ->
     item x n c s = item x' n c s) ->
  exists y y',
    Highway_forward (Highway_init H K D true w b) x = Ok y /\
    Highway_forward (Highway_init H K D true w b) x' = Ok y' /\
    forall n c, n < size0 y -> c < size1 y ->
      item y n c t = item y' n c t.
Proof.
  intros HH HK HD Hc Hb Hc' Ht Ht' Hagree.
  destruct (@CausalConv1d_forward_ok H (2 * H) K D w b x)
    as (Hout & HHout & H0 & H1 & H2 & Hit); try assumption; try lia.
  destruct (@CausalConv1d_forward_ok H (2 * H) K D w b x')
    as (Hout' & HHout' & H0' & H1' & H2' & Hit'); try assumption; try lia.
  destruct (@Highway_forward_items (Highway_init H K D true w b) x Hout
              (size1 x)) as (y & Hy & Hsh & Hy_it);
    try assumption; try reflexivity; try (cbn [Highway_init hw_d]; lia).
  destruct (@Highway_forward_items (Highway_init H K D true w b) x' Hout'
              (size1 x')) as (y' & Hy' & Hsh' & Hy_it');
    try assumption; try reflexivity; try (cbn [Highway_init hw_d]; lia).
  exists y, y'. split; [exact Hy |]. split; [exact Hy' |].
  unfold shape in Hsh. injection Hsh as Hs0 Hs1 Hs2.
  intros n c Hn Hch.
  assert (Hconv_t : forall co, item Hout n co t = item Hout' n co t).
  { intros co. rewrite Hit, Hit', Hc'.
    apply causal_conv_sum_agree; try assumption.
    intros ci s Hci Hs. apply Hagree; lia. }
  rewrite Hy_it, Hy_it' by lia.
  rewrite !Hconv_t, Hc'.
  rewrite (Hagree n c t) by lia.
  reflexivity.
Qed.

(** C8: a [Highway] layer built with causal=False and (K-1)*D odd raises
    an error on every input whose sequence length L is such that L - 1
    does not broadcast with L: the inner convolution returns sequences of
    length L - 1 and the product with the input fails (or, before that,
    the convolution rejects an input with other than H channels). *)
Theorem Highway_noncausal_odd_error (H K D : Z)
    (w : nat -> nat -> nat -> R) (b : nat -> R) x :
  (1 <= H)%Z -> (1 <= K)%Z -> (1 <= D)%Z ->
  Z.odd ((K - 1) * D) = true ->
  broadcast_dim (size2 x - 1) (size2 x) = None ->
  Highway_forward (Highway_init H K D false w b) x =
    Err (if (Z.of_nat (size1 x) =? H)%Z
         then BroadcastMismatch else ChannelMismatch).
Proof.
  intros HH HK HD Hodd Hbc.
  pose proof (odd_half_twice _ Hodd) as Hhalf.
  assert (Hp : (0 <= (K - 1) * D / 2)%Z) by (apply Z.div_pos; nia).
  apply broadcast_dim_pred_none in Hbc.
  destruct (Z.eqb_spec (Z.of_nat (size1 x)) H) as [Hc | Hc].
  - destruct (@NonCausalConv1d_forward_ok H (2 * H) K D w b x)
      as (Hout & HHout & H0 & H1 & H2 & _); try assumption; try lia.
    unfold Highway_forward.
    cbn [Highway_init hw_conv hw_d HighwayConv_forward].
    rewrite HHout. cbn [bind].
    destruct Hout as [b0 c0 l0 f]. cbn [size0 size1 size2] in H0, H1, H2.
    replace H with (Z.of_nat (size1 x)) by assumption.
    replace c0 with (2 * size1 x) by lia.
    unfold tmul, tadd, broadcast2, F_sigmoid, rsub, tmap, slice1.
    cbn [size0 size1 size2 item].
    rewrite slice_range_first_half, slice_range_second_half.
    cbn [size0 size1 size2 item].
    rewrite !broadcast_dim_same. cbn [bind size0 size1 size2 item].
    rewrite H0, !broadcast_dim_same.
    replace l0 with (size2 x - 1) by lia.
    apply broadcast_dim_pred_none in Hbc. rewrite Hbc. reflexivity.
  - unfold Highway_forward.
    cbn [Highway_init hw_conv hw_d HighwayConv_forward].
    unfold NonCausalConv1d_forward, NonCausalConv1d_init, Conv1d_forward.
    cbn [nc_conv].
    rewrite conv_args_ok_init by lia.
    cbn [negb in_channels].
    apply Z.eqb_neq in Hc. rewrite Hc. reflexivity.
Qed.

(** C4, where it fails: the non-causal [Highway] layer with hidden size 1,
    kernel size 2 and dilation 1 raises an error on every input of shape
    (1, 1, 3), whatever its parameters, instead of returning a tensor of
    that shape. *)
Theorem Highway_noncausal_shape_failure (w : nat -> nat -> nat -> R)
    (b : nat -> R) (f : nat -> nat -> nat -> R) :
  Highway_forward (Highway_init 1 2 1 false w b) (mkTensor 1 1 3 f)
    = Err BroadcastMismatch.
Proof. reflexivity. Qed.

(** C3, where it fails: for the non-causal [Highway] layer with hidden
    size 1, kernel size 2 and dilation 1 and an input x of shape (1, 1, 3),
    the inner convolution returns its two channels G and T with 2
    positions only, and [forward] raises instead of returning
    sigmoid(G) * T + (1 - sigmoid(G)) * x, whatever the parameters and the
    entries of x. *)
Theorem Highway_noncausal_formula_failure (w : nat -> nat -> nat -> R)
    (b : nat -> R) (f : nat -> nat -> nat -> R) :
  (exists Hout,
     HighwayConv_forward (hw_conv (Highway_init 1 2 1 false w b))
       (mkTensor 1 1 3 f) = Ok Hout /\
     shape Hout = (1, 2, 2)) /\
  Highway_forward (Highway_init 1 2 1 false w b) (mkTensor 1 1 3 f)
    = Err BroadcastMismatch.
Proof.
  split; [| reflexivity].
  eexists. split; reflexivity.
Qed.

(** ** Forward evaluation as a function of parameters and input *)

Lemma tensor_eq_sizes x y :
  tensor_eq x y ->
  size0 x = size0 y /\ size1 x = size1 y /\ size2 x = size2 y.
Proof.
  intros [Hsh _]. unfold shape in Hsh. injection Hsh as H0 H1 H2.
  repeat split; assumption.
Qed.

#[export] Instance tensor_eq_Equivalence : Equivalence (tensor_eq (R := R)).
Proof.
  split.
  - intros x. split; [reflexivity | intros; reflexivity].
  - intros x y Hxy. destruct (tensor_eq_sizes Hxy) as (H0 & H1 & H2).
    destruct Hxy as [Hsh Hit]. split; [symmetry; exact Hsh |].
    intros n c t Hn Hc Ht. symmetry. apply Hit; lia.
  - intros x y z Hxy Hyz.
    destruct (tensor_eq_sizes Hxy) as (H0 & H1 & H2).
    destruct Hxy as [Hsh Hit], Hyz as [Hsh' Hit'].
    split; [etransitivity; eassumption |].
    intros n c t Hn Hc Ht. rewrite Hit by assumption. apply Hit'; lia.
Qed.

Lemma slice_index_le (len : nat) (i : Z) : slice_index len i <= len.
Proof. unfold slice_index. destruct (Z.ltb_spec i 0); lia. Qed.

(** A slice stays inside the axis it is taken from. *)
Lemma slice_range_in (len : nat) (start stop : option Z) (lo n t : nat) :
  slice_range len start stop = (lo, n) -> t < n -> lo + t < len.
Proof.
  unfold slice_range. intros Heq Ht. injection Heq as Hlo Hn.
  assert (Hhi : match stop with
                | Some i => slice_index len i
                | None => len
                end <= len).
  { destruct stop; [apply slice_index_le | lia]. }
  lia.
Qed.

Lemma broadcast_dim_bidx_l (a b d n : nat) :
  broadcast_dim a b = Some d -> n < d -> bidx a n < a.
Proof.
  unfold broadcast_dim, bidx.
  destruct (Nat.eqb_spec a b), (Nat.eqb_spec a 1), (Nat.eqb_spec b 1);
    intros Heq Hn; try discriminate; injection Heq as <-; lia.
Qed.

Lemma broadcast_dim_bidx_r (a b d n : nat) :
  broadcast_dim a b = Some d -> n < d -> bidx b n < b.
Proof.
  unfold broadcast_dim, bidx.
  destruct (Nat.eqb_spec a b), (Nat.eqb_spec a 1), (Nat.eqb_spec b 1);
    intros Heq Hn; try discriminate; injection Heq as <-; lia.
Qed.

Lemma bind_result_eq (r r' : Result (Tensor (R := R)))
    (k k' : Tensor (R := R) -> Result (Tensor (R := R))) :
  result_eq r r' ->
  (forall y y', tensor_eq y y' -> result_eq (k y) (k' y')) ->
  result_eq (bind r k) (bind r' k').
Proof.
  intros Hr Hk. destruct r as [y | e], r' as [y' | e']; cbn in *.
  - apply Hk. exact Hr.
  - contradiction.
  - contradiction.
  - exact Hr.
Qed.

Lemma tmap_tensor_eq (f : R -> R) x x' :
  tensor_eq x x' -> tensor_eq (tmap f x) (tmap f x').
Proof.
  intros Hx. destruct (tensor_eq_sizes Hx) as (H0 & H1 & H2).
  destruct Hx as [_ Hit]. unfold tmap, tensor_eq, shape.
  cbn [size0 size1 size2 item]. split.
  - congruence.
  - intros n c t Hn Hc Ht. rewrite Hit by assumption. reflexivity.
Qed.

Lemma contiguous_tensor_eq x x' :
  tensor_eq x x' -> tensor_eq (contiguous x) (contiguous x').
Proof.
  intros Hx. destruct (tensor_eq_sizes Hx) as (H0 & H1 & H2).
  destruct Hx as [_ Hit]. unfold contiguous, tensor_eq, shape.
  cbn [size0 size1 size2 item]. split.
  - congruence.
  - intros n c t Hn Hc Ht. apply Hit; assumption.
Qed.

Lemma slice1_tensor_eq (start stop : option Z) x x' :
  tensor_eq x x' -> tensor_eq (slice1 start stop x) (slice1 start stop x').
Proof.
  intros Hx. destruct (tensor_eq_sizes Hx) as (H0 & H1 & H2).
  destruct Hx as [_ Hit]. unfold slice1. rewrite <- H1.
  destruct (slice_range (size1 x) start stop) as [lo len] eqn:Hrange.
  unfold tensor_eq, shape. cbn [size0 size1 size2 item]. split.
  - congruence.
  - intros n c t Hn Hc Ht. apply Hit; try assumption.
    eapply slice_range_in; eassumption.
Qed.

Lemma slice2_tensor_eq (start stop : option Z) x x' :
  tensor_eq x x' -> tensor_eq (slice2 start stop x) (slice2 start stop x').
Proof.
  intros Hx. destruct (tensor_eq_sizes Hx) as (H0 & H1 & H2).
  destruct Hx as [_ Hit]. unfold slice2. rewrite <- H2.
  destruct (slice_range (size2 x) start stop) as [lo len] eqn:Hrange.
  unfold tensor_eq, shape. cbn [size0 size1 size2 item]. split.
  - congruence.
  - intros n c t Hn Hc Ht. apply Hit; try assumption.
    eapply slice_range_in; eassumption.
Qed.

Lemma broadcast2_result_eq (f : R -> R -> R) (a a' c c' : Tensor (R := R)) :
  tensor_eq a a' -> tensor_eq c c' ->
  result_eq (broadcast2 f a c) (broadcast2 f a' c').
Proof.
  intros Ha Hc.
  destruct (tensor_eq_sizes Ha) as (Ha0 & Ha1 & Ha2).
  destruct (tensor_eq_sizes Hc) as (Hc0 & Hc1 & Hc2).
  destruct Ha as [_ Ha_it], Hc as [_ Hc_it].
  unfold broadcast2. rewrite <- Ha0, <- Ha1, <- Ha2, <- Hc0, <- Hc1, <- Hc2.
  destruct (broadcast_dim (size0 a) (size0 c)) as [d0 |] eqn:Hd0;
    [| reflexivity].
  destruct (broadcast_dim (size1 a) (size1 c)) as [d1 |] eqn:Hd1;
    [| reflexivity].
  destruct (broadcast_dim (size2 a) (size2 c)) as [d2 |] eqn:Hd2;
    [| reflexivity].
  unfold result_eq, tensor_eq, shape. cbn [size0 size1 size2 item].
  split; [reflexivity |].
  intros n ch t Hn Hch Ht.
  rewrite Ha_it, Hc_it;
    eauto using broadcast_dim_bidx_l, broadcast_dim_bidx_r.
Qed.

Lemma padded_item_tensor_eq x x' (p n ci j : nat) :
  tensor_eq x x' -> n < size0 x -> ci < size1 x ->
  padded_item x p n ci j = padded_item x' p n ci j.
Proof.
  intros Hx Hn Hci. destruct (tensor_eq_sizes Hx) as (_ & _ & H2).
  destruct Hx as [_ Hit]. unfold padded_item. rewrite <- H2.
  destruct (j <? p); [reflexivity |].
  destruct (Nat.ltb_spec (j - p) (size2 x)) as [Hlt | _]; [| reflexivity].
  apply Hit; assumption.
Qed.

Lemma Conv1d_forward_result_eq (c c' : Conv1d) x x' :
  Conv1d_eq c c' -> tensor_eq x x' ->
  result_eq (Conv1d_forward c x) (Conv1d_forward c' x').
Proof.
  intros (Hi & Ho & HK & Hs & Hp & Hd & Hw & Hb) Hx.
  destruct (tensor_eq_sizes Hx) as (H0 & H1 & H2).
  unfold Conv1d_forward, conv_args_ok, conv_out_len.
  rewrite <- Hi, <- Ho, <- HK, <- Hs, <- Hp, <- Hd, <- H0, <- H1, <- H2.
  destruct (negb _); [reflexivity |].
  destruct (Z.eqb_spec (Z.of_nat (size1 x)) (in_channels c)) as [Hch | _];
    [| reflexivity].
  cbn [negb].
  destruct (_ <? _)%Z; [reflexivity |].
  unfold result_eq, tensor_eq, shape. cbn [size0 size1 size2 item].
  split; [reflexivity |].
  intros n co t Hn Hco Ht.
  rewrite Hb by assumption.
  apply conv_sum_ext.
  - intros ci k Hci Hk. apply Hw; assumption.
  - intros ci k Hci Hk. apply padded_item_tensor_eq; try assumption. lia.
Qed.

Lemma NonCausalConv1d_forward_result_eq (l l' : NonCausalConv1d) x x' :
  NonCausalConv1d_eq l l' -> tensor_eq x x' ->
  result_eq (NonCausalConv1d_forward l x) (NonCausalConv1d_forward l' x').
Proof.
  intros Hl Hx. unfold NonCausalConv1d_forward.
  apply Conv1d_forward_result_eq; assumption.
Qed.

Lemma CausalConv1d_forward_result_eq (l l' : CausalConv1d) x x' :
  CausalConv1d_eq l l' -> tensor_eq x x' ->
  result_eq (CausalConv1d_forward l x) (CausalConv1d_forward l' x').
Proof.
  intros [Hp Hl] Hx. unfold CausalConv1d_forward. rewrite <- Hp.
  apply bind_result_eq.
  - apply Conv1d_forward_result_eq; assumption.
  - intros y y' Hy. destruct (0 <? c_padding l)%Z; unfold result_eq.
    + apply contiguous_tensor_eq, slice2_tensor_eq, Hy.
    + exact Hy.
Qed.

Lemma HighwayConv_forward_result_eq (c c' : HighwayConv) x x' :
  HighwayConv_eq c c' -> tensor_eq x x' ->
  result_eq (HighwayConv_forward c x) (HighwayConv_forward c' x').
Proof.
  intros Hc Hx. destruct c as [l | l], c' as [l' | l'];
    cbn [HighwayConv_eq HighwayConv_forward] in *; try contradiction.
  - apply CausalConv1d_forward_result_eq; assumption.
  - apply NonCausalConv1d_forward_result_eq; assumption.
Qed.

Lemma Highway_forward_result_eq (h h' : Highway) x x' :
  Highway_eq h h' -> tensor_eq x x' ->
  result_eq (Highway_forward h x) (Highway_forward h' x').
Proof.
  intros [Hd Hc] Hx. unfold Highway_forward. rewrite <- Hd.
  apply bind_result_eq.
  - apply HighwayConv_forward_result_eq; assumption.
  - intros Hout Hout' HHout. cbv zeta.
    apply bind_result_eq.
    + apply broadcast2_result_eq.
      * apply tmap_tensor_eq, slice1_tensor_eq, HHout.
      * apply slice1_tensor_eq, HHout.
    + intros gated gated' Hg.
      apply bind_result_eq.
      * apply broadcast2_result_eq; [| exact Hx].
        unfold rsub, F_sigmoid.
        apply tmap_tensor_eq, tmap_tensor_eq, slice1_tensor_eq, HHout.
      * intros carried carried' Hcar.
        apply broadcast2_result_eq; assumption.
Qed.

(** The layers read the weight, bias and input entries at indices below
    the sizes and no other: layers with the same arguments and the same
    such weight and bias entries, on inputs with the same shape and
    entries, raise the same error or return tensors with the same shape
    and entries. *)
Lemma forward_respects_tensor_eq (nc nc' : NonCausalConv1d)
    (cc cc' : CausalConv1d)
    (h h' : Highway) x x' :
  NonCausalConv1d_eq nc nc' -> CausalConv1d_eq cc cc' -> Highway_eq h h' ->
  tensor_eq x x' ->
  result_eq (forward nc x) (forward nc' x') /\
  result_eq (forward cc x) (forward cc' x') /\
  result_eq (forward h x) (forward h' x').
Proof.
  intros Hnc Hcc Hh Hx. split; [| split].
  - apply NonCausalConv1d_forward_result_eq; assumption.
  - apply CausalConv1d_forward_result_eq; assumption.
  - apply Highway_forward_result_eq; assumption.
Qed.

(** ** [test_module_shapes] *)

(** The three assertions of the repository's test hold for any entries of
    the inputs and any parameter values. *)
Lemma test_module_shapes
    (w1 w2 w3 : nat -> nat -> nat -> R) (b1 b2 b3 : nat -> R)
    (f1 f2 f3 : nat -> nat -> nat -> R) :
  exists out out2 out3,
    NonCausalConv1d_forward (NonCausalConv1d_init 256 (256 * 2) 3 3 w1 b1)
      (mkTensor 5 256 40 f1) = Ok out /\
    CausalConv1d_forward (CausalConv1d_init 256 (256 * 2) 3 9 w2 b2)
      (mkTensor 5 256 40 f2) = Ok out2 /\
    Highway_forward (Highway_init 256 3 3 true w3 b3)
      (mkTensor 5 256 80 f3) = Ok out3 /\
    (size1 out = 256 * 2 /\ size2 out = 40) /\
    (size1 out2 = 256 * 2 /\ size2 out2 = 40) /\
    (size1 out3 = 256 /\ size2 out3 = 80).
Proof.
  do 3 eexists.
  split; [reflexivity |]. split; [reflexivity |]. split; [reflexivity |].
  repeat split; reflexivity.
Qed.

(** * Further properties of the layers *)

(** ** Kernel size 1 *)

(** With kernel size 1 both layers pad with nothing and trim nothing: they
    are the same function, errors included. *)
Theorem kernel1_layers_coincide (i o D : Z) (w : nat -> nat -> nat -> R)
    (b : nat -> R) x :
  NonCausalConv1d_forward (NonCausalConv1d_init i o 1 D w b) x =
  CausalConv1d_forward (CausalConv1d_init i o 1 D w b) x.
Proof.
  unfold NonCausalConv1d_forward, CausalConv1d_forward,
    NonCausalConv1d_init, CausalConv1d_init.
  cbn [nc_conv c_conv c_padding].
  change ((1 - 1) * D)%Z with 0%Z. change (0 / 2)%Z with 0%Z.
  change (0 <? 0)%Z with false. cbn iota.
  destruct (Conv1d_forward _ x); reflexivity.
Qed.

(** ** Receptive fields *)

(** The causal layer at position [t] reads the [K] input positions
    [t], [t - D], ..., [t - (K-1) * D] (those that exist) and no other. *)
Theorem CausalConv1d_receptive_field (i o K D : Z)
    (w : nat -> nat -> nat -> R) (b : nat -> R) x x' (t : nat) :
  (1 <= K)%Z -> (1 <= D)%Z -> (1 <= i)%Z -> (1 <= o)%Z ->
  Z.of_nat (size1 x) = i ->
  size0 x' = size0 x -> size1 x' = size1 x ->
  t < size2 x -> t < size2 x' ->
  (forall n c j, n < size0 x -> c < size1 x ->
     j < Z.to_nat K -> j * Z.to_nat D <= t ->
     item x n c (t - j * Z.to_nat D) = item x' n c (t - j * Z.to_nat D)) ->
  exists y y',
    CausalConv1d_forward (CausalConv1d_init i o K D w b) x = Ok y /\
    CausalConv1d_forward (CausalConv1d_init i o K D w b) x' = Ok y' /\
    forall n co, n < size0 y -> co < size1 y ->
      item y n co t = item y' n co t.
Proof.
  intros HK HD _ Ho Hi Hb Hc Ht Ht' Hagree.
  destruct (@CausalConv1d_forward_ok i o K D w b x)
    as (y & Hy & H0 & _ & _ & Hit); try assumption; try lia.
  destruct (@CausalConv1d_forward_ok i o K D w b x')
    as (y' & Hy' & _ & _ & _ & Hit'); try assumption; try lia.
  exists y, y'. split; [exact Hy |]. split; [exact Hy' |].
  intros n co Hn _.
  rewrite Hit, Hit', Hc.
  apply conv_sum_ext; [reflexivity |].
  intros ci k Hci Hk. unfold padded_item.
  set (d := Z.to_nat D) in *. set (Kn := Z.to_nat K) in *.
  assert (Hsplit : (Kn - 1) * d = k * d + (Kn - 1 - k) * d) by nia.
  destruct (Nat.ltb_spec (t + k * d) ((Kn - 1) * d)) as [_ | Hge];
    [reflexivity |].
  replace (t + k * d - (Kn - 1) * d) with (t - (Kn - 1 - k) * d) by lia.
  assert (Hin : t - (Kn - 1 - k) * d < size2 x) by lia.
  assert (Hin' : t - (Kn - 1 - k) * d < size2 x') by lia.
  apply Nat.ltb_lt in Hin, Hin'. rewrite Hin, Hin'.
  apply Hagree; lia.
Qed.

(** The non-causal layer with (K-1)*D even reads, at position [t], input
    positions at distance at most (K-1)*D/2 from [t], on both sides. *)
Theorem NonCausalConv1d_receptive_field (i o K D : Z)
    (w : nat -> nat -> nat -> R) (b : nat -> R) x x' (t : nat) :
  (1 <= K)%Z -> (1 <= D)%Z -> (1 <= i)%Z -> (1 <= o)%Z ->
  Z.even ((K - 1) * D) = true ->
  Z.of_nat (size1 x) = i ->
  shape x' = shape x -> t < size2 x ->
  (forall n c s, n < size0 x -> c < size1 x -> s < size2 x ->
     t <= s + Z.to_nat ((K - 1) * D / 2) ->
     s <= t + Z.to_nat ((K - 1) * D / 2) ->
     item x n c s = item x' n c s) ->
  exists y y',
    NonCausalConv1d_forward (NonCausalConv1d_init i o K D w b) x = Ok y /\
    NonCausalConv1d_forward (NonCausalConv1d_init i o K D w b) x' = Ok y' /\
    forall n co, n < size0 y -> co < size1 y ->
      item y n co t = item y' n co t.
Proof.
  intros HK HD _ Ho Hev Hi Hsh Ht Hagree.
  unfold shape in Hsh. injection Hsh as Hs0 Hs1 Hs2.
  pose proof (even_half_twice _ Hev) as Hhalf.
  pose proof (causal_padding_nat HK HD) as Hpad.
  assert (Hp : (0 <= (K - 1) * D / 2)%Z) by (apply Z.div_pos; nia).
  destruct (@NonCausalConv1d_forward_ok i o K D w b x)
    as (y & Hy & H0 & _ & _ & Hit); try assumption; try lia.
  destruct (@NonCausalConv1d_forward_ok i o K D w b x')
    as (y' & Hy' & _ & _ & _ & Hit'); try assumption; try lia.
  exists y, y'. split; [exact Hy |]. split; [exact Hy' |].
  intros n co Hn _.
  rewrite Hit, Hit', Hs1.
  apply conv_sum_ext; [reflexivity |].
  intros ci k Hci Hk. unfold padded_item. rewrite Hs2.
  set (h := Z.to_nat ((K - 1) * D / 2)) in *.
  set (d := Z.to_nat D) in *. set (Kn := Z.to_nat K) in *.
  assert (Hdouble : (Kn - 1) * d = 2 * h).
  { rewrite <- Hpad. unfold h. lia. }
  assert (Hle : k * d <= (Kn - 1) * d) by nia.
  destruct (Nat.ltb_spec (t + k * d) h) as [_ | Hge]; [reflexivity |].
  destruct (Nat.ltb_spec (t + k * d - h) (size2 x)) as [Hlt | _];
    [| reflexivity].
  apply Hagree; lia.
Qed.

(** ** The causal layer on shifted and on truncated inputs *)

Lemma conv_sum_ext_shift (wc : nat -> nat -> R) (bc : R)
    (inp inp' : nat -> nat -> R) (cin K d start start' : nat) :
  (forall ci k, ci < cin -> k < K ->
     inp ci (start + k * d) = inp' ci (start' + k * d)) ->
  conv_sum wc bc inp cin K d start = conv_sum wc bc inp' cin K d start'.
Proof.
  intros Hinp. unfold conv_sum.
  apply fold_left_ext_in. intros acc ci Hci. apply in_seq in Hci.
  apply fold_left_ext_in. intros acc' k Hk. apply in_seq in Hk.
  rewrite Hinp by lia. reflexivity.
Qed.

Lemma padded_item_shift x (s p n ci j : nat) :
  padded_item (pad_left s x) p n ci (s + j) = padded_item x p n ci j.
Proof.
  unfold padded_item, pad_left. cbn [size2 item].
  destruct (Nat.ltb_spec (s + j) p) as [Hlt | Hge].
  - destruct (Nat.ltb_spec j p) as [_ | Hge]; [reflexivity | lia].
  - destruct (Nat.ltb_spec j p) as [Hjp | Hjp].
    + destruct (Nat.ltb_spec (s + j - p) s) as [_ | Hge']; [| lia].
      destruct (s + j - p <? s + size2 x); reflexivity.
    + replace (s + j - p) with (s + (j - p)) by lia.
      destruct (Nat.ltb_spec (s + (j - p)) (s + size2 x)),
        (Nat.ltb_spec (j - p) (size2 x)); try lia; try reflexivity.
      destruct (Nat.ltb_spec (s + (j - p)) s) as [Hlt | _]; [lia |].
      f_equal. lia.
Qed.

Lemma slice_range_from (len s : nat) :
  slice_range (s + len) (Some (Z.of_nat s)) None = (s, len).
Proof.
  unfold slice_range, slice_index.
  destruct (Z.ltb_spec (Z.of_nat s) 0) as [Hlt | _]; [lia |].
  f_equal; lia.
Qed.

Lemma slice_range_upto (len m : nat) :
  m <= len -> slice_range len None (Some (Z.of_nat m)) = (0, m).
Proof.
  intros Hm. unfold slice_range, slice_index.
  destruct (Z.ltb_spec (Z.of_nat m) 0) as [Hlt | _]; [lia |].
  f_equal; lia.
Qed.

(** Delaying the input by [s] steps ([s] zeros put before it) delays the
    output of the causal layer by [s] steps: from position [s] on, it is
    the output for the original input. *)
Theorem CausalConv1d_shift (i o K D : Z) (w : nat -> nat -> nat -> R)
    (b : nat -> R) x (s : nat) :
  (1 <= K)%Z -> (1 <= D)%Z -> (1 <= i)%Z -> (1 <= o)%Z ->
  Z.of_nat (size1 x) = i -> 1 <= size2 x ->
  exists y ys,
    CausalConv1d_forward (CausalConv1d_init i o K D w b) x = Ok y /\
    CausalConv1d_forward (CausalConv1d_init i o K D w b) (pad_left s x)
      = Ok ys /\
    tensor_eq (slice2 (Some (Z.of_nat s)) None ys) y.
Proof.
  intros HK HD _ Ho Hi HL.
  destruct (@CausalConv1d_forward_ok i o K D w b x)
    as (y & Hy & H0 & H1 & H2 & Hit); try assumption; try lia.
  destruct (@CausalConv1d_forward_ok i o K D w b (pad_left s x))
    as (ys & Hys & Hs0 & Hs1 & Hs2 & Hits);
    try assumption; try (cbn [pad_left size1 size2]; lia).
  exists y, ys. split; [exact Hy |]. split; [exact Hys |].
  cbn [pad_left size0 size1 size2] in Hs0, Hs1, Hs2, Hits.
  unfold slice2. rewrite Hs2, slice_range_from.
  unfold tensor_eq, shape. cbn [size0 size1 size2 item]. split.
  - congruence.
  - intros n co t _ _ _. rewrite Hits, Hit.
    apply conv_sum_ext_shift. intros ci k _ _.
    rewrite <- Nat.add_assoc. apply padded_item_shift.
Qed.

(** The causal layer on the first [m] positions of the input returns the
    first [m] positions of its output on the whole input. *)
Theorem CausalConv1d_prefix (i o K D : Z) (w : nat -> nat -> nat -> R)
    (b : nat -> R) x (m : nat) :
  (1 <= K)%Z -> (1 <= D)%Z -> (1 <= i)%Z -> (1 <= o)%Z ->
  Z.of_nat (size1 x) = i -> 1 <= m -> m <= size2 x ->
  exists y ym,
    CausalConv1d_forward (CausalConv1d_init i o K D w b) x = Ok y /\
    CausalConv1d_forward (CausalConv1d_init i o K D w b)
      (slice2 None (Some (Z.of_nat m)) x) = Ok ym /\
    tensor_eq ym (slice2 None (Some (Z.of_nat m)) y).
Proof.
  intros HK HD _ Ho Hi Hm HmL.
  destruct (@CausalConv1d_forward_ok i o K D w b x)
    as (y & Hy & H0 & H1 & H2 & Hit); try assumption; try lia.
  assert (Hpre : slice2 None (Some (Z.of_nat m)) x =
                 mkTensor (size0 x) (size1 x) m
                   (fun n c t => item x n c (0 + t))).
  { unfold slice2. rewrite slice_range_upto by assumption. reflexivity. }
  rewrite Hpre.
  destruct (@CausalConv1d_forward_ok i o K D w b
              (mkTensor (size0 x) (size1 x) m
                 (fun n c t => item x n c (0 + t))))
    as (ym & Hym & Hm0 & Hm1 & Hm2 & Hitm);
    try assumption; try (cbn [size1 size2]; lia).
  exists y, ym. split; [exact Hy |]. split; [exact Hym |].
  cbn [size0 size1 size2] in Hm0, Hm1, Hm2, Hitm.
  unfold slice2. rewrite H2, slice_range_upto by assumption.
  unfold tensor_eq, shape. cbn [size0 size1 size2 item]. split.
  - congruence.
  - intros n co t _ _ Ht. rewrite Hitm, Hit, Nat.add_0_l.
    apply causal_conv_sum_agree; try assumption.
    + cbn [size2]. lia.
    + lia.
    + intros c q _ _. reflexivity.
Qed.

(** ** Inputs the layers do not check for *)

Lemma Conv1d_forward_channel_mismatch (c : Conv1d) x :
  conv_args_ok c = true ->
  Z.of_nat (size1 x) <> in_channels c ->
  Conv1d_forward c x = Err ChannelMismatch.
Proof.
  intros Hargs Hch. unfold Conv1d_forward. rewrite Hargs. cbn [negb].
  apply Z.eqb_neq in Hch. rewrite Hch. reflexivity.
Qed.

Lemma NonCausalConv1d_channel_mismatch (i o K D : Z)
    (w : nat -> nat -> nat -> R) (b : nat -> R) x :
  (1 <= K)%Z -> (1 <= D)%Z -> (0 <= i)%Z -> (0 <= o)%Z ->
  Z.of_nat (size1 x) <> i ->
  NonCausalConv1d_forward (NonCausalConv1d_init i o K D w b) x
    = Err ChannelMismatch.
Proof.
  intros HK HD Hi Ho Hch.
  assert (Hp : (0 <= (K - 1) * D / 2)%Z) by (apply Z.div_pos; nia).
  unfold NonCausalConv1d_forward, NonCausalConv1d_init.
  cbn [nc_conv]. apply Conv1d_forward_channel_mismatch.
  - apply conv_args_ok_init; lia.
  - exact Hch.
Qed.

Lemma CausalConv1d_channel_mismatch (i o K D : Z)
    (w : nat -> nat -> nat -> R) (b : nat -> R) x :
  (1 <= K)%Z -> (1 <= D)%Z -> (0 <= i)%Z -> (0 <= o)%Z ->
  Z.of_nat (size1 x) <> i ->
  CausalConv1d_forward (CausalConv1d_init i o K D w b) x
    = Err ChannelMismatch.
Proof.
  intros HK HD Hi Ho Hch.
  assert (Hp : (0 <= (K - 1) * D)%Z) by nia.
  unfold CausalConv1d_forward, CausalConv1d_init.
  cbn [c_conv c_padding]. rewrite Conv1d_forward_channel_mismatch.
  - reflexivity.
  - apply conv_args_ok_init; lia.
  - exact Hch.
Qed.

Lemma Highway_channel_mismatch (H K D : Z) (causal : bool)
    (w : nat -> nat -> nat -> R) (b : nat -> R) x :
  (1 <= K)%Z -> (1 <= D)%Z -> (0 <= H)%Z ->
  Z.of_nat (size1 x) <> H ->
  Highway_forward (Highway_init H K D causal w b) x = Err ChannelMismatch.
Proof.
  intros HK HD HH Hch.
  unfold Highway_forward. destruct causal;
    cbn [Highway_init hw_conv hw_d HighwayConv_forward].
  - rewrite CausalConv1d_channel_mismatch by (assumption || lia).
    reflexivity.
  - rewrite NonCausalConv1d_channel_mismatch by (assumption || lia).
    reflexivity.
Qed.

(** None of the layers looks at the input's channel count: with another
    count than the layer was built for, it is the convolution that raises,
    in all three layers and in both modes of the highway layer. *)
Theorem forward_channel_mismatch (i o K D : Z) (causal : bool)
    (w : nat -> nat -> nat -> R) (b : nat -> R) x :
  (1 <= K)%Z -> (1 <= D)%Z -> (1 <= i)%Z -> (1 <= o)%Z ->
  Z.of_nat (size1 x) <> i ->
  NonCausalConv1d_forward (NonCausalConv1d_init i o K D w b) x
    = Err ChannelMismatch /\
  CausalConv1d_forward (CausalConv1d_init i o K D w b) x
    = Err ChannelMismatch /\
  Highway_forward (Highway_init i K D causal w b) x = Err ChannelMismatch.
Proof.
  intros HK HD Hi Ho Hch. split; [| split].
  - apply NonCausalConv1d_channel_mismatch; assumption || lia.
  - apply CausalConv1d_channel_mismatch; assumption || lia.
  - apply Highway_channel_mismatch; assumption || lia.
Qed.

(** ** The non-causal highway layer with (K-1)*D odd, on short inputs *)

Lemma bidx_one (i : nat) : bidx 1 i = 0.
Proof. reflexivity. Qed.

Lemma broadcast_dim_one_l (l : nat) : broadcast_dim 1 l = Some l.
Proof.
  unfold broadcast_dim. destruct (Nat.eqb_spec 1 l) as [<- | _]; reflexivity.
Qed.

Lemma Highway_odd_length_one (H K D : Z) (w : nat -> nat -> nat -> R)
    (b : nat -> R) x :
  (1 <= H)%Z -> (1 <= K)%Z -> (1 <= D)%Z ->
  Z.odd ((K - 1) * D) = true ->
  Z.of_nat (size1 x) = H -> size2 x = 1 ->
  Highway_forward (Highway_init H K D false w b) x = Err KernelTooLarge.
Proof.
  intros HH HK HD Hodd Hc HL.
  unfold Highway_forward.
  cbn [Highway_init hw_conv hw_d HighwayConv_forward].
  rewrite NonCausalConv1d_forward_odd_too_short by (assumption || lia).
  reflexivity.
Qed.

(** With a sequence of length 1 the convolution of the non-causal layer
    has nothing long enough to work on; the highway layer over it raises
    the same error. *)
Theorem odd_length_one_error (H K D : Z) (w : nat -> nat -> nat -> R)
    (b : nat -> R) x :
  (1 <= H)%Z -> (1 <= K)%Z -> (1 <= D)%Z ->
  Z.odd ((K - 1) * D) = true ->
  Z.of_nat (size1 x) = H -> size2 x = 1 ->
  NonCausalConv1d_forward (NonCausalConv1d_init H (2 * H) K D w b) x
    = Err KernelTooLarge /\
  Highway_forward (Highway_init H K D false w b) x = Err KernelTooLarge.
Proof.
  intros HH HK HD Hodd Hc HL. split.
  - apply NonCausalConv1d_forward_odd_too_short; assumption || lia.
  - apply Highway_odd_length_one; assumption.
Qed.

(** The highway combination when the inner convolution returns a single
    position: the element-wise operators repeat it along the sequence. *)
Lemma Highway_forward_items_broadcast (self : Highway) x Hout (H : nat) :
  hw_d self = Z.of_nat H ->
  size1 x = H ->
  HighwayConv_forward (hw_conv self) x = Ok Hout ->
  size0 Hout = size0 x -> size1 Hout = 2 * H -> size2 Hout = 1 ->
  exists y,
    Highway_forward self x = Ok y /\
    shape y = shape x /\
    forall n c t, n < size0 x -> c < H -> t < size2 x ->
      item y n c t =
        sadd (smul (sigmoid (item Hout n c 0)) (item Hout n (H + c) 0))
             (smul (ssub sone (sigmoid (item Hout n c 0))) (item x n c t)).
Proof.
  intros Hd Hc Hconv H0 H1 H2.
  unfold Highway_forward. rewrite Hconv, Hd. cbn [bind].
  destruct Hout as [b0 c0 l0 f]. cbn [size0 size1 size2] in H0, H1, H2.
  subst b0 c0 l0.
  unfold tmul, tadd, broadcast2, F_sigmoid, rsub, tmap, slice1.
  cbn [size0 size1 size2 item].
  rewrite slice_range_first_half, slice_range_second_half.
  cbn [size0 size1 size2 item].
  rewrite Hc, !broadcast_dim_same. cbn [bind size0 size1 size2 item].
  rewrite broadcast_dim_one_l. cbn [bind size0 size1 size2 item].
  rewrite !broadcast_dim_same, broadcast_dim_one_l.
  eexists. split; [reflexivity |]. split.
  - unfold shape. cbn [size0 size1 size2]. rewrite Hc. reflexivity.
  - intros n c t Hn Hch Ht. cbn [size0 size1 size2 item].
    rewrite !bidx_one, !(bidx_below Hn), !(bidx_below Hch), !(bidx_below Ht).
    rewrite Nat.add_0_l. reflexivity.
Qed.

(** With a sequence of length 2 the inner convolution returns a single
    position, and the element-wise operators broadcast it instead of
    failing: the layer returns a tensor of the input's shape in which both
    positions are gated by the gate and transform of that one position. *)
Theorem Highway_noncausal_odd_length_two (H K D : Z)
    (w : nat -> nat -> nat -> R) (b : nat -> R) x :
  (1 <= H)%Z -> (1 <= K)%Z -> (1 <= D)%Z ->
  Z.odd ((K - 1) * D) = true ->
  Z.of_nat (size1 x) = H -> size2 x = 2 ->
  exists Hout y,
    NonCausalConv1d_forward (NonCausalConv1d_init H (2 * H) K D w b) x
      = Ok Hout /\
    size2 Hout = 1 /\
    Highway_forward (Highway_init H K D false w b) x = Ok y /\
    shape y = shape x /\
    forall n c t, n < size0 x -> c < size1 x -> t < 2 ->
      item y n c t =
        sadd (smul (sigmoid (item Hout n c 0)) (item Hout n (size1 x + c) 0))
             (smul (ssub sone (sigmoid (item Hout n c 0))) (item x n c t)).
Proof.
  intros HH HK HD Hodd Hc HL.
  pose proof (odd_half_twice _ Hodd) as Hhalf.
  destruct (@NonCausalConv1d_forward_ok H (2 * H) K D w b x)
    as (Hout & HHout & H0 & H1 & H2 & _); try assumption; try lia.
  assert (H2' : size2 Hout = 1) by lia.
  destruct (@Highway_forward_items_broadcast (Highway_init H K D false w b)
              x Hout (size1 x)) as (y & Hy & Hsh & Hit);
    try assumption; try reflexivity; try (cbn [Highway_init hw_d]; lia).
  exists Hout, y. repeat split; try assumption.
  intros n c t Hn Hch Ht. apply Hit; lia.
Qed.

Lemma Highway_noncausal_odd_mismatch (H K D : Z)
    (w : nat -> nat -> nat -> R) (b : nat -> R) x :
  (1 <= H)%Z -> (1 <= K)%Z -> (1 <= D)%Z ->
  Z.odd ((K - 1) * D) = true ->
  Z.of_nat (size1 x) = H -> 3 <= size2 x ->
  Highway_forward (Highway_init H K D false w b) x = Err BroadcastMismatch.
Proof.
  intros HH HK HD Hodd Hc HL.
  pose proof (odd_half_twice _ Hodd) as Hhalf.
  destruct (@NonCausalConv1d_forward_ok H (2 * H) K D w b x)
    as (Hout & HHout & H0 & H1 & H2 & _); try assumption; try lia.
  unfold Highway_forward.
  cbn [Highway_init hw_conv hw_d HighwayConv_forward].
  rewrite HHout. cbn [bind].
  destruct Hout as [b0 c0 l0 f]. cbn [size0 size1 size2] in H0, H1, H2.
  replace H with (Z.of_nat (size1 x)) by assumption.
  replace c0 with (2 * size1 x) by lia.
  unfold tmul, tadd, broadcast2, F_sigmoid, rsub, tmap, slice1.
  cbn [size0 size1 size2 item].
  rewrite slice_range_first_half, slice_range_second_half.
  cbn [size0 size1 size2 item].
  rewrite !broadcast_dim_same. cbn [bind size0 size1 size2 item].
  rewrite H0, !broadcast_dim_same.
  replace l0 with (size2 x - 1) by lia.
  apply broadcast_dim_pred_none in HL. rewrite HL. reflexivity.
Qed.

(** Where the inner convolution keeps the length (the causal mode, or
    (K-1)*D even), the highway layer returns the input's shape. *)
Lemma Highway_forward_keeps_shape (H K D : Z) (causal : bool)
    (w : nat -> nat -> nat -> R) (b : nat -> R) x :
  (1 <= H)%Z -> (1 <= K)%Z -> (1 <= D)%Z ->
  causal = true \/ Z.even ((K - 1) * D) = true ->
  Z.of_nat (size1 x) = H -> 1 <= size2 x ->
  exists y,
    Highway_forward (Highway_init H K D causal w b) x = Ok y /\
    shape y = shape x.
Proof.
  intros HH HK HD Hmode Hc HL.
  assert (Hconv : exists Hout,
             HighwayConv_forward (hw_conv (Highway_init H K D causal w b)) x
               = Ok Hout /\
             size0 Hout = size0 x /\ size1 Hout = 2 * size1 x /\
             size2 Hout = size2 x).
  { destruct causal; cbn [Highway_init hw_conv HighwayConv_forward].
    - destruct (@CausalConv1d_forward_ok H (2 * H) K D w b x)
        as (Hout & HHout & H0 & H1 & H2 & _); try assumption; try lia.
      exists Hout. repeat split; try assumption. lia.
    - destruct Hmode as [Hmode | Hev]; [discriminate |].
      pose proof (even_half_twice _ Hev) as Hhalf.
      destruct (@NonCausalConv1d_forward_ok H (2 * H) K D w b x)
        as (Hout & HHout & H0 & H1 & H2 & _); try assumption; try lia.
      exists Hout. repeat split; try assumption; lia. }
  destruct Hconv as (Hout & HHout & H0 & H1 & H2).
  destruct (@Highway_forward_items (Highway_init H K D causal w b) x Hout
              (size1 x)) as (y & Hy & Hsh & _);
    try assumption; try reflexivity; try (cbn [Highway_init hw_d]; lia).
  exists y. split; assumption.
Qed.

(** On a valid configuration, in either mode and for any input with at
    least one position, the highway layer never returns a tensor of
    another shape than its input's: it returns that shape or raises. *)
Theorem Highway_forward_shape_or_error (H K D : Z) (causal : bool)
    (w : nat -> nat -> nat -> R) (b : nat -> R) x :
  (1 <= H)%Z -> (1 <= K)%Z -> (1 <= D)%Z -> 1 <= size2 x ->
  match Highway_forward (Highway_init H K D causal w b) x with
  | Ok y => shape y = shape x
  | Err _ => True
  end.
Proof.
  intros HH HK HD HL.
  destruct (Z.eq_dec (Z.of_nat (size1 x)) H) as [Hc | Hc].
  - assert (Hkeep : causal = true \/ Z.even ((K - 1) * D) = true ->
                    match Highway_forward (Highway_init H K D causal w b) x
                    with
                    | Ok y => shape y = shape x
                    | Err _ => True
                    end).
    { intros Hmode.
      destruct (@Highway_forward_keeps_shape H K D causal w b x)
        as (y0 & Hy0 & Hsh); try assumption.
      rewrite Hy0. exact Hsh. }
    destruct (Z.even ((K - 1) * D)) eqn:Hev; [apply Hkeep; right; reflexivity |].
    destruct causal; [apply Hkeep; left; reflexivity |].
    assert (Hodd : Z.odd ((K - 1) * D) = true).
    { rewrite <- Z.negb_even, Hev. reflexivity. }
    destruct (Nat.eq_dec (size2 x) 1) as [H1 | H1].
    { rewrite Highway_odd_length_one by assumption. exact I. }
    destruct (Nat.eq_dec (size2 x) 2) as [H2 | H2].
    + pose proof (odd_half_twice _ Hodd) as Hhalf.
      destruct (@NonCausalConv1d_forward_ok H (2 * H) K D w b x)
        as (Hout & HHout & H0 & H1' & H2' & _); try assumption; try lia.
      destruct (@Highway_forward_items_broadcast
                  (Highway_init H K D false w b) x Hout (size1 x))
        as (y0 & Hy0 & Hsh & _);
        try assumption; try reflexivity;
        try (cbn [Highway_init hw_d]; lia); try lia.
      rewrite Hy0. exact Hsh.
    + rewrite Highway_noncausal_odd_mismatch by (assumption || lia).
      exact I.
  - rewrite Highway_channel_mismatch by (assumption || lia).
    exact I.
Qed.

(** ** Batch elements are treated independently *)

Lemma batch_eq_sizes (n : nat) x y :
  batch_eq n x y ->
  size0 x = size0 y /\ size1 x = size1 y /\ size2 x = size2 y.
Proof.
  intros [Hsh _]. unfold shape in Hsh. injection Hsh as H0 H1 H2.
  repeat split; assumption.
Qed.

Lemma bidx_broadcast_l (a b d n : nat) :
  broadcast_dim a b = Some d -> bidx a (bidx d n) = bidx a n.
Proof.
  unfold broadcast_dim, bidx.
  destruct (Nat.eqb_spec a b), (Nat.eqb_spec a 1), (Nat.eqb_spec b 1);
    intros Heq; try discriminate; injection Heq as <-;
    repeat match goal with
           | |- context [?u =? ?v] => destruct (Nat.eqb_spec u v)
           end; lia.
Qed.

Lemma bidx_broadcast_r (a b d n : nat) :
  broadcast_dim a b = Some d -> bidx b (bidx d n) = bidx b n.
Proof.
  unfold broadcast_dim, bidx.
  destruct (Nat.eqb_spec a b), (Nat.eqb_spec a 1), (Nat.eqb_spec b 1);
    intros Heq; try discriminate; injection Heq as <-;
    repeat match goal with
           | |- context [?u =? ?v] => destruct (Nat.eqb_spec u v)
           end; lia.
Qed.

Lemma bind_result_batch_eq (n : nat) (r r' : Result (Tensor (R := R)))
    (k k' : Tensor (R := R) -> Result (Tensor (R := R))) :
  result_batch_eq n r r' ->
  (forall y y', batch_eq n y y' -> result_batch_eq n (k y) (k' y')) ->
  result_batch_eq n (bind r k) (bind r' k').
Proof.
  intros Hr Hk. destruct r as [y | e], r' as [y' | e']; cbn in *.
  - apply Hk. exact Hr.
  - contradiction.
  - contradiction.
  - exact Hr.
Qed.

Lemma tmap_batch_eq (n : nat) (f : R -> R) x x' :
  batch_eq n x x' -> batch_eq n (tmap f x) (tmap f x').
Proof.
  intros Hx. destruct (batch_eq_sizes Hx) as (H0 & H1 & H2).
  destruct Hx as [_ Hit]. unfold tmap, batch_eq, shape.
  cbn [size0 size1 size2 item]. split.
  - congruence.
  - intros c t Hc Ht. rewrite Hit by assumption. reflexivity.
Qed.

Lemma contiguous_batch_eq (n : nat) x x' :
  batch_eq n x x' -> batch_eq n (contiguous x) (contiguous x').
Proof.
  intros Hx. destruct (batch_eq_sizes Hx) as (H0 & H1 & H2).
  destruct Hx as [_ Hit]. unfold contiguous, batch_eq, shape.
  cbn [size0 size1 size2 item]. split.
  - congruence.
  - intros c t Hc Ht. apply Hit; assumption.
Qed.

Lemma slice1_batch_eq (n : nat) (start stop : option Z) x x' :
  batch_eq n x x' -> batch_eq n (slice1 start stop x) (slice1 start stop x').
Proof.
  intros Hx. destruct (batch_eq_sizes Hx) as (H0 & H1 & H2).
  destruct Hx as [_ Hit]. unfold slice1. rewrite <- H1.
  destruct (slice_range (size1 x) start stop) as [lo len] eqn:Hrange.
  unfold batch_eq, shape. cbn [size0 size1 size2 item]. split.
  - congruence.
  - intros c t Hc Ht. apply Hit; try assumption.
    eapply slice_range_in; eassumption.
Qed.

Lemma slice2_batch_eq (n : nat) (start stop : option Z) x x' :
  batch_eq n x x' -> batch_eq n (slice2 start stop x) (slice2 start stop x').
Proof.
  intros Hx. destruct (batch_eq_sizes Hx) as (H0 & H1 & H2).
  destruct Hx as [_ Hit]. unfold slice2. rewrite <- H2.
  destruct (slice_range (size2 x) start stop) as [lo len] eqn:Hrange.
  unfold batch_eq, shape. cbn [size0 size1 size2 item]. split.
  - congruence.
  - intros c t Hc Ht. apply Hit; try assumption.
    eapply slice_range_in; eassumption.
Qed.

Lemma broadcast2_batch_eq (n : nat) (f : R -> R -> R)
    (a a' c c' : Tensor (R := R)) :
  batch_eq n a a' -> batch_eq n c c' ->
  result_batch_eq n (broadcast2 f a c) (broadcast2 f a' c').
Proof.
  intros Ha Hc.
  destruct (batch_eq_sizes Ha) as (Ha0 & Ha1 & Ha2).
  destruct (batch_eq_sizes Hc) as (Hc0 & Hc1 & Hc2).
  destruct Ha as [_ Ha_it], Hc as [_ Hc_it].
  unfold broadcast2. rewrite <- Ha0, <- Ha1, <- Ha2, <- Hc0, <- Hc1, <- Hc2.
  destruct (broadcast_dim (size0 a) (size0 c)) as [d0 |] eqn:Hd0;
    [| reflexivity].
  destruct (broadcast_dim (size1 a) (size1 c)) as [d1 |] eqn:Hd1;
    [| reflexivity].
  destruct (broadcast_dim (size2 a) (size2 c)) as [d2 |] eqn:Hd2;
    [| reflexivity].
  unfold result_batch_eq, batch_eq, shape. cbn [size0 size1 size2 item].
  split; [reflexivity |].
  intros ch t Hch Ht.
  rewrite (bidx_broadcast_l _ _ n Hd0), (bidx_broadcast_r _ _ n Hd0).
  rewrite Ha_it, Hc_it;
    eauto using broadcast_dim_bidx_l, broadcast_dim_bidx_r.
Qed.

Lemma Conv1d_forward_batch_eq (n : nat) (c : Conv1d) x x' :
  batch_eq n x x' ->
  result_batch_eq n (Conv1d_forward c x) (Conv1d_forward c x').
Proof.
  intros Hx. destruct (batch_eq_sizes Hx) as (H0 & H1 & H2).
  destruct Hx as [_ Hit].
  unfold Conv1d_forward. rewrite <- H0, <- H1, <- H2.
  destruct (negb _); [reflexivity |].
  destruct (Z.eqb_spec (Z.of_nat (size1 x)) (in_channels c)) as [Hch | _];
    [| reflexivity].
  cbn [negb].
  destruct (_ <? _)%Z; [reflexivity |].
  unfold result_batch_eq, batch_eq, shape. cbn [size0 size1 size2 item].
  split; [reflexivity |].
  intros co t Hco Ht.
  apply conv_sum_ext; [reflexivity |].
  intros ci k Hci Hk. unfold padded_item. rewrite <- H2.
  destruct (_ <? Z.to_nat (padding c)); [reflexivity |].
  destruct (Nat.ltb_spec
              (t * Z.to_nat (stride c) + k * Z.to_nat (dilation c)
               - Z.to_nat (padding c)) (size2 x)) as [Hlt | _];
    [| reflexivity].
  apply Hit; [lia | assumption].
Qed.

Lemma CausalConv1d_forward_batch_eq (n : nat) (l : CausalConv1d) x x' :
  batch_eq n x x' ->
  result_batch_eq n (CausalConv1d_forward l x) (CausalConv1d_forward l x').
Proof.
  intros Hx. unfold CausalConv1d_forward.
  apply bind_result_batch_eq.
  - apply Conv1d_forward_batch_eq, Hx.
  - intros y y' Hy. destruct (0 <? c_padding l)%Z; unfold result_batch_eq.
    + apply contiguous_batch_eq, slice2_batch_eq, Hy.
    + exact Hy.
Qed.

Lemma HighwayConv_forward_batch_eq (n : nat) (c : HighwayConv) x x' :
  batch_eq n x x' ->
  result_batch_eq n (HighwayConv_forward c x) (HighwayConv_forward c x').
Proof.
  intros Hx. destruct c as [l | l]; cbn [HighwayConv_forward].
  - apply CausalConv1d_forward_batch_eq, Hx.
  - apply Conv1d_forward_batch_eq, Hx.
Qed.

Lemma Highway_forward_batch_eq (n : nat) (h : Highway) x x' :
  batch_eq n x x' ->
  result_batch_eq n (Highway_forward h x) (Highway_forward h x').
Proof.
  intros Hx. unfold Highway_forward.
  apply bind_result_batch_eq.
  - apply HighwayConv_forward_batch_eq, Hx.
  - intros Hout Hout' HHout. cbv zeta.
    apply bind_result_batch_eq.
    + apply broadcast2_batch_eq.
      * apply tmap_batch_eq, slice1_batch_eq, HHout.
      * apply slice1_batch_eq, HHout.
    + intros gated gated' Hg.
      apply bind_result_batch_eq.
      * apply broadcast2_batch_eq; [| exact Hx].
        unfold rsub, F_sigmoid.
        apply tmap_batch_eq, tmap_batch_eq, slice1_batch_eq, HHout.
      * intros carried carried' Hcar.
        apply broadcast2_batch_eq; assumption.
Qed.

Lemma result_batch_eq_agree (n : nat) (r r' : Result (Tensor (R := R))) :
  result_batch_eq n r r' -> results_agree_on_batch n r r'.
Proof.
  destruct r as [y | e], r' as [y' | e']; cbn; try (intros H; exact H).
  intros [Hsh Hit]. split; [exact Hsh |].
  intros c t Hn Hc Ht. rewrite <- (bidx_below Hn). apply Hit; assumption.
Qed.

(** Each layer works on every batch element by itself: two inputs of one
    shape with the same entries in batch element [n] give, in all three
    layers, the same error or outputs with the same entries in batch
    element [n], whatever the other batch elements hold. *)
Theorem forward_batch_independent (nc : NonCausalConv1d) (cc : CausalConv1d)
    (h : Highway) x x' (n : nat) :
  shape x = shape x' -> n < size0 x ->
  (forall c t, c < size1 x -> t < size2 x -> item x n c t = item x' n c t) ->
  results_agree_on_batch n (forward nc x) (forward nc x') /\
  results_agree_on_batch n (forward cc x) (forward cc x') /\
  results_agree_on_batch n (forward h x) (forward h x').
Proof.
  intros Hsh Hn Hit.
  assert (Hx : batch_eq n x x').
  { split; [exact Hsh |]. intros c t Hc Ht.
    rewrite (bidx_below Hn). apply Hit; assumption. }
  split; [| split]; apply result_batch_eq_agree.
  - apply Conv1d_forward_batch_eq, Hx.
  - apply CausalConv1d_forward_batch_eq, Hx.
  - apply Highway_forward_batch_eq, Hx.
Qed.

(** ** Causal highway layers in sequence *)

Lemma Highway_causal_at (H K D : Z) (w : nat -> nat -> nat -> R)
    (b : nat -> R) x x' y y' (t : nat) :
  (1 <= H)%Z -> (1 <= K)%Z -> (1 <= D)%Z ->
  Z.of_nat (size1 x) = H ->
  size0 x' = size0 x -> size1 x' = size1 x ->
  t < size2 x -> t < size2 x' ->
  (forall n c s, n < size0 x -> c < size1 x -> s <= t ->
     item x n c s = item x' n c s) ->
  Highway_forward (Highway_init H K D true w b) x = Ok y ->
  Highway_forward (Highway_init H K D true w b) x' = Ok y' ->
  forall n c, n < size0 x -> c < size1 x -> item y n c t = item y' n c t.
Proof.
  intros HH HK HD Hc Hb Hc' Ht Ht' Hagree Hy Hy' n c Hn Hch.
  destruct (@CausalConv1d_forward_ok H (2 * H) K D w b x)
    as (Hout & HHout & H0 & H1 & H2 & Hit); try assumption; try lia.
  destruct (@CausalConv1d_forward_ok H (2 * H) K D w b x')
    as (Hout' & HHout' & H0' & H1' & H2' & Hit'); try assumption; try lia.
  destruct (@Highway_forward_items (Highway_init H K D true w b) x Hout
              (size1 x)) as (y0 & Hy0 & _ & Hy_it);
    try assumption; try reflexivity; try (cbn [Highway_init hw_d]; lia).
  destruct (@Highway_forward_items (Highway_init H K D true w b) x' Hout'
              (size1 x')) as (y0' & Hy0' & _ & Hy_it');
    try assumption; try reflexivity; try (cbn [Highway_init hw_d]; lia).
  assert (y0 = y) by congruence. assert (y0' = y') by congruence.
  subst y0 y0'.
  assert (Hconv_t : forall co, item Hout n co t = item Hout' n co t).
  { intros co. rewrite Hit, Hit', Hc'.
    apply causal_conv_sum_agree; try assumption.
    intros ci s Hci Hs. apply Hagree; lia. }
  rewrite Hy_it, Hy_it' by lia.
  rewrite !Hconv_t, Hc'.
  rewrite (Hagree n c t) by lia.
  reflexivity.
Qed.

(** Two causal highway layers of one hidden size, the second applied to
    the output of the first, return the input's shape and are causal
    together: inputs that agree at all positions <= t give final outputs
    that agree at position t. *)
Theorem Highway_causal_stack (H K1 D1 K2 D2 : Z)
    (w1 w2 : nat -> nat -> nat -> R) (b1 b2 : nat -> R) x x' (t : nat) :
  (1 <= H)%Z -> (1 <= K1)%Z -> (1 <= D1)%Z -> (1 <= K2)%Z -> (1 <= D2)%Z ->
  Z.of_nat (size1 x) = H ->
  size0 x' = size0 x -> size1 x' = size1 x ->
  t < size2 x -> t < size2 x' ->
  (forall n c s, n < size0 x -> c < size1 x -> s <= t ->
     item x n c s = item x' n c s) ->
  exists z z',
    (y <- Highway_forward (Highway_init H K1 D1 true w1 b1) x ;;
     Highway_forward (Highway_init H K2 D2 true w2 b2) y) = Ok z /\
    (y <- Highway_forward (Highway_init H K1 D1 true w1 b1) x' ;;
     Highway_forward (Highway_init H K2 D2 true w2 b2) y) = Ok z' /\
    shape z = shape x /\ shape z' = shape x' /\
    forall n c, n < size0 x -> c < size1 x -> item z n c t = item z' n c t.
Proof.
  intros HH HK1 HD1 HK2 HD2 Hc Hb Hc' Ht Ht' Hagree.
  destruct (@Highway_forward_keeps_shape H K1 D1 true w1 b1 x)
    as (y & Hy & Hsh); try assumption; try lia; try (left; reflexivity).
  destruct (@Highway_forward_keeps_shape H K1 D1 true w1 b1 x')
    as (y' & Hy' & Hsh'); try assumption; try lia; try (left; reflexivity).
  unfold shape in Hsh, Hsh'.
  injection Hsh as Hy0 Hy1 Hy2. injection Hsh' as Hy0' Hy1' Hy2'.
  destruct (@Highway_forward_keeps_shape H K2 D2 true w2 b2 y)
    as (z & Hz & Hzsh); try assumption; try lia; try (left; reflexivity).
  destruct (@Highway_forward_keeps_shape H K2 D2 true w2 b2 y')
    as (z' & Hz' & Hzsh'); try assumption; try lia; try (left; reflexivity).
  exists z, z'. rewrite Hy, Hy'. cbn [bind].
  split; [exact Hz |]. split; [exact Hz' |].
  split; [rewrite Hzsh; unfold shape; congruence |].
  split; [rewrite Hzsh'; unfold shape; congruence |].
  intros n c Hn Hch.
  apply (@Highway_causal_at H K2 D2 w2 b2 y y' z z' t);
    try assumption; try lia.
  intros n0 c0 s Hn0 Hc0 Hs.
  apply (@Highway_causal_at H K1 D1 w1 b1 x x' y y' s);
    try assumption; try lia.
  intros n1 c1 s1 Hn1 Hc1 Hs1. apply Hagree; lia.
Qed.

End Properties.

(** * The theorems on concrete inputs *)

(** The layers run on a small input: one batch element, two channels
    [1 2 3 4 5] and [11 12 13 14 15]. *)
Example CausalConv1d_forward_ramp :
  match CausalConv1d_forward (CausalConv1d_init 2 3 3 2 w_ex b_ex) (ramp 1 2 5)
  with
  | Ok y => Some (shape y, to_list y)
  | Err _ => None
  end
  = Some ((1, 3, 5),
          [[[106; 122; 208; 234; 294];
            [119; 137; 237; 267; 343];
            [132; 152; 266; 300; 392]]]%Z).
Proof. reflexivity. Qed.

Example left_pad_conv_ramp :
  match left_pad_conv 2 3 3 2 w_ex b_ex (ramp 1 2 5) with
  | Ok y => Some (shape y, to_list y)
  | Err _ => None
  end
  = Some ((1, 3, 5),
          [[[106; 122; 208; 234; 294];
            [119; 137; 237; 267; 343];
            [132; 152; 266; 300; 392]]]%Z).
Proof. reflexivity. Qed.

(** With the input zeroed from position 3 on, the outputs at positions
    0, 1 and 2 are the same as above. *)
Example CausalConv1d_forward_ramp_cut :
  match CausalConv1d_forward (CausalConv1d_init 2 3 3 2 w_ex b_ex)
          (ramp_cut 1 2 5 3)
  with
  | Ok y => Some (shape y, to_list y)
  | Err _ => None
  end
  = Some ((1, 3, 5),
          [[[106; 122; 208; 80; 124];
            [119; 137; 237; 95; 153];
            [132; 152; 266; 110; 182]]]%Z).
Proof. reflexivity. Qed.

(** Kernel size 2 and dilation 1: the non-causal layer returns one
    position fewer, and the highway layer over it fails on length 3,
    broadcasts on length 2 and cannot convolve on length 1. *)
Example NonCausalConv1d_forward_ramp_odd :
  match NonCausalConv1d_forward (NonCausalConv1d_init 2 3 2 1 w_ex b_ex)
          (ramp 1 2 4)
  with
  | Ok y => Some (shape y, to_list y)
  | Err _ => None
  end
  = Some ((1, 3, 3),
          [[[114; 128; 142]; [141; 159; 177]; [168; 190; 212]]]%Z).
Proof. reflexivity. Qed.

Example Highway_forward_odd_lengths :
  Highway_forward (Highway_init 1 2 1 false w_ex b_ex) (ramp 1 1 3)
    = Err BroadcastMismatch /\
  match Highway_forward (Highway_init 1 2 1 false w_ex b_ex) (ramp 1 1 2) with
  | Ok y => Some (shape y, to_list y)
  | Err _ => None
  end = Some ((1, 1, 2), [[[13; 13]]]%Z) /\
  Highway_forward (Highway_init 1 2 1 false w_ex b_ex) (ramp 1 1 1)
    = Err KernelTooLarge.
Proof. repeat split; reflexivity. Qed.

Lemma ramp_cut_agrees (b c l p n ch s : nat) :
  s < p -> item (ramp b c l) n ch s = item (ramp_cut b c l p) n ch s.
Proof.
  intros Hs. unfold ramp, ramp_cut. cbn [item].
  destruct (Nat.ltb_spec s p) as [_ | Hge]; [reflexivity | lia].
Defined.

Lemma CausalConv1d_forward_shape_witness :
  exists y,
    CausalConv1d_forward (CausalConv1d_init 2 3 3 2 w_ex b_ex) (ramp 1 2 5)
      = Ok y /\
    size0 y = 1 /\ Z.of_nat (size1 y) = 3%Z /\ size2 y = 5.
Proof.
  apply (@CausalConv1d_forward_shape Z _ 2 3 3 2 w_ex b_ex (ramp 1 2 5));
    cbn; try reflexivity; lia.
Defined.

Lemma CausalConv1d_causal_witness :
  exists y y',
    CausalConv1d_forward (CausalConv1d_init 2 3 3 2 w_ex b_ex) (ramp 1 2 5)
      = Ok y /\
    CausalConv1d_forward (CausalConv1d_init 2 3 3 2 w_ex b_ex)
      (ramp_cut 1 2 5 3) = Ok y' /\
    forall n co, n < size0 y -> co < size1 y -> item y n co 2 = item y' n co 2.
Proof.
  apply (@CausalConv1d_causal Z _ 2 3 3 2 w_ex b_ex (ramp 1 2 5)
           (ramp_cut 1 2 5 3) 2); cbn [size0 size1 size2 ramp ramp_cut];
    try reflexivity; try lia.
  intros n c s _ _ Hs. apply ramp_cut_agrees. lia.
Defined.

Lemma CausalConv1d_forward_left_pad_witness :
  exists y y',
    CausalConv1d_forward (CausalConv1d_init 2 3 3 2 w_ex b_ex) (ramp 1 2 5)
      = Ok y /\
    left_pad_conv 2 3 3 2 w_ex b_ex (ramp 1 2 5) = Ok y' /\
    tensor_eq y y'.
Proof.
  apply (@CausalConv1d_forward_left_pad Z _ 2 3 3 2 w_ex b_ex (ramp 1 2 5));
    cbn; try reflexivity; lia.
Defined.

Lemma NonCausalConv1d_forward_shape_even_witness :
  exists y,
    NonCausalConv1d_forward (NonCausalConv1d_init 2 3 3 1 w_ex b_ex)
      (ramp 1 2 4) = Ok y /\
    size0 y = 1 /\ Z.of_nat (size1 y) = 3%Z /\ size2 y = 4.
Proof.
  apply (@NonCausalConv1d_forward_shape_even Z _ 2 3 3 1 w_ex b_ex
           (ramp 1 2 4)); cbn; try reflexivity; lia.
Defined.

Lemma NonCausalConv1d_forward_shape_odd_witness :
  exists y,
    NonCausalConv1d_forward (NonCausalConv1d_init 2 3 2 1 w_ex b_ex)
      (ramp 1 2 4) = Ok y /\
    size0 y = 1 /\ Z.of_nat (size1 y) = 3%Z /\
    size2 y = 4 - 1 /\ size2 y <> 4.
Proof.
  apply (@NonCausalConv1d_forward_shape_odd Z _ 2 3 2 1 w_ex b_ex
           (ramp 1 2 4)); cbn; try reflexivity; lia.
Defined.

Lemma Highway_forward_formula_witness :
  exists Hout y,
    HighwayConv_forward (hw_conv (Highway_init 2 3 1 true w_ex b_ex))
      (ramp 1 2 3) = Ok Hout /\
    size1 Hout = 2 * 2 /\
    Highway_forward (Highway_init 2 3 1 true w_ex b_ex) (ramp 1 2 3) = Ok y /\
    shape y = (1, 2, 3) /\
    forall n c t, n < 1 -> c < 2 -> t < 3 ->
      item y n c t =
        sadd (smul (sigmoid (item Hout n c t)) (item Hout n (2 + c) t))
             (smul (ssub sone (sigmoid (item Hout n c t)))
                   (item (ramp 1 2 3) n c t)).
Proof.
  apply (@Highway_forward_formula Z _ 2 3 1 true w_ex b_ex (ramp 1 2 3));
    [lia | lia | lia | left; reflexivity | reflexivity | cbn; lia].
Defined.

Lemma Highway_noncausal_odd_error_witness :
  Highway_forward (Highway_init 2 2 1 false w_ex b_ex) (ramp 1 2 4)
    = Err BroadcastMismatch.
Proof.
  apply (@Highway_noncausal_odd_error Z _ 2 2 1 w_ex b_ex (ramp 1 2 4));
    cbn; try reflexivity; lia.
Defined.

Lemma Highway_causal_witness :
  exists y y',
    Highway_forward (Highway_init 2 3 2 true w_ex b_ex) (ramp 1 2 5) = Ok y /\
    Highway_forward (Highway_init 2 3 2 true w_ex b_ex) (ramp_cut 1 2 5 3)
      = Ok y' /\
    forall n c, n < size0 y -> c < size1 y -> item y n c 2 = item y' n c 2.
Proof.
  apply (@Highway_causal Z _ 2 3 2 w_ex b_ex (ramp 1 2 5)
           (ramp_cut 1 2 5 3) 2); cbn [size0 size1 size2 ramp ramp_cut];
    try reflexivity; try lia.
  intros n c s _ _ Hs. apply ramp_cut_agrees. lia.
Defined.

(** * The further properties on concrete inputs *)

(** The non-causal layer is not causal: there are two inputs that agree at
    position 0 whose outputs differ there, the kernel reaching one
    position ahead. *)
Theorem NonCausalConv1d_looks_ahead :
  exists (x x' : Tensor (R := Z)) y y',
    shape x' = shape x /\
    (forall n c s, s <= 0 -> item x n c s = item x' n c s) /\
    NonCausalConv1d_forward (NonCausalConv1d_init 2 3 3 1 w_ex b_ex) x
      = Ok y /\
    NonCausalConv1d_forward (NonCausalConv1d_init 2 3 3 1 w_ex b_ex) x'
      = Ok y' /\
    item y 0 0 0 <> item y' 0 0 0.
Proof.
  exists (ramp 1 2 5), (ramp_cut 1 2 5 1). do 2 eexists.
  split; [reflexivity |]. split.
  - intros n c s Hs. apply ramp_cut_agrees. lia.
  - split; [reflexivity |]. split; [reflexivity |].
    cbn. discriminate.
Qed.

Lemma CausalConv1d_receptive_field_witness :
  exists y y',
    CausalConv1d_forward (CausalConv1d_init 2 3 3 2 w_ex b_ex) (ramp 1 2 5)
      = Ok y /\
    CausalConv1d_forward (CausalConv1d_init 2 3 3 2 w_ex b_ex)
      (ramp_keep 1 2 5 Nat.even) = Ok y' /\
    forall n co, n < size0 y -> co < size1 y -> item y n co 4 = item y' n co 4.
Proof.
  apply (@CausalConv1d_receptive_field Z _ 2 3 3 2 w_ex b_ex (ramp 1 2 5)
           (ramp_keep 1 2 5 Nat.even) 4);
    cbn [size0 size1 size2 ramp ramp_keep]; try reflexivity; try lia.
  intros n c j _ _ Hj _. cbn [item].
  destruct j as [| [| [| j]]]; [reflexivity | reflexivity | reflexivity |].
  cbn in Hj. lia.
Defined.

Lemma NonCausalConv1d_receptive_field_witness :
  exists y y',
    NonCausalConv1d_forward (NonCausalConv1d_init 2 3 3 1 w_ex b_ex)
      (ramp 1 2 5) = Ok y /\
    NonCausalConv1d_forward (NonCausalConv1d_init 2 3 3 1 w_ex b_ex)
      (ramp_keep 1 2 5 (fun s => (1 <=? s) && (s <=? 3))) = Ok y' /\
    forall n co, n < size0 y -> co < size1 y -> item y n co 2 = item y' n co 2.
Proof.
  apply (@NonCausalConv1d_receptive_field Z _ 2 3 3 1 w_ex b_ex (ramp 1 2 5)
           (ramp_keep 1 2 5 (fun s => (1 <=? s) && (s <=? 3))) 2);
    cbn [size0 size1 size2 ramp ramp_keep]; try reflexivity; try lia.
  intros n c s _ _ _ Hlo Hhi. unfold ramp, ramp_keep. cbn [item].
  change (Z.to_nat ((3 - 1) * 1 / 2)) with 1 in Hlo, Hhi.
  destruct (Nat.leb_spec 1 s) as [_ | Hs]; [| lia].
  destruct (Nat.leb_spec s 3) as [_ | Hs]; [reflexivity | lia].
Defined.

Lemma CausalConv1d_shift_witness :
  exists y ys,
    CausalConv1d_forward (CausalConv1d_init 2 3 3 2 w_ex b_ex) (ramp 1 2 5)
      = Ok y /\
    CausalConv1d_forward (CausalConv1d_init 2 3 3 2 w_ex b_ex)
      (pad_left 2 (ramp 1 2 5)) = Ok ys /\
    tensor_eq (slice2 (Some 2%Z) None ys) y.
Proof.
  apply (@CausalConv1d_shift Z _ 2 3 3 2 w_ex b_ex (ramp 1 2 5) 2);
    cbn; try reflexivity; lia.
Defined.

Lemma CausalConv1d_prefix_witness :
  exists y ym,
    CausalConv1d_forward (CausalConv1d_init 2 3 3 2 w_ex b_ex) (ramp 1 2 5)
      = Ok y /\
    CausalConv1d_forward (CausalConv1d_init 2 3 3 2 w_ex b_ex)
      (slice2 None (Some 3%Z) (ramp 1 2 5)) = Ok ym /\
    tensor_eq ym (slice2 None (Some 3%Z) y).
Proof.
  apply (@CausalConv1d_prefix Z _ 2 3 3 2 w_ex b_ex (ramp 1 2 5) 3);
    cbn; try reflexivity; lia.
Defined.

Lemma forward_channel_mismatch_witness :
  NonCausalConv1d_forward (NonCausalConv1d_init 2 3 3 1 w_ex b_ex)
    (ramp 1 3 5) = Err ChannelMismatch /\
  CausalConv1d_forward (CausalConv1d_init 2 3 3 1 w_ex b_ex) (ramp 1 3 5)
    = Err ChannelMismatch /\
  Highway_forward (Highway_init 2 3 1 false w_ex b_ex) (ramp 1 3 5)
    = Err ChannelMismatch.
Proof.
  apply (@forward_channel_mismatch Z _ 2 3 3 1 false w_ex b_ex (ramp 1 3 5));
    cbn; lia.
Defined.

Lemma odd_length_one_error_witness :
  NonCausalConv1d_forward (NonCausalConv1d_init 2 (2 * 2) 2 1 w_ex b_ex)
    (ramp 1 2 1) = Err KernelTooLarge /\
  Highway_forward (Highway_init 2 2 1 false w_ex b_ex) (ramp 1 2 1)
    = Err KernelTooLarge.
Proof.
  apply (@odd_length_one_error Z _ 2 2 1 w_ex b_ex (ramp 1 2 1));
    cbn; try reflexivity; lia.
Defined.

Lemma Highway_noncausal_odd_length_two_witness :
  exists Hout y,
    NonCausalConv1d_forward (NonCausalConv1d_init 2 (2 * 2) 2 1 w_ex b_ex)
      (ramp 1 2 2) = Ok Hout /\
    size2 Hout = 1 /\
    Highway_forward (Highway_init 2 2 1 false w_ex b_ex) (ramp 1 2 2)
      = Ok y /\
    shape y = (1, 2, 2) /\
    forall n c t, n < 1 -> c < 2 -> t < 2 ->
      item y n c t =
        sadd (smul (sigmoid (item Hout n c 0)) (item Hout n (2 + c) 0))
             (smul (ssub sone (sigmoid (item Hout n c 0)))
                   (item (ramp 1 2 2) n c t)).
Proof.
  apply (@Highway_noncausal_odd_length_two Z _ 2 2 1 w_ex b_ex (ramp 1 2 2));
    cbn; try reflexivity; lia.
Defined.

Lemma Highway_forward_shape_or_error_witness :
  match Highway_forward (Highway_init 2 2 1 false w_ex b_ex) (ramp 1 2 2) with
  | Ok y => shape y = (1, 2, 2)
  | Err _ => True
  end.
Proof.
  apply (@Highway_forward_shape_or_error Z _ 2 2 1 false w_ex b_ex
           (ramp 1 2 2)); cbn; lia.
Defined.

Lemma forward_batch_independent_witness :
  results_agree_on_batch 0
    (forward (NonCausalConv1d_init 2 3 3 1 w_ex b_ex) (ramp 2 2 4))
    (forward (NonCausalConv1d_init 2 3 3 1 w_ex b_ex) (ramp_batch0 2 2 4)) /\
  results_agree_on_batch 0
    (forward (CausalConv1d_init 2 3 3 2 w_ex b_ex) (ramp 2 2 4))
    (forward (CausalConv1d_init 2 3 3 2 w_ex b_ex) (ramp_batch0 2 2 4)) /\
  results_agree_on_batch 0
    (forward (Highway_init 2 3 2 true w_ex b_ex) (ramp 2 2 4))
    (forward (Highway_init 2 3 2 true w_ex b_ex) (ramp_batch0 2 2 4)).
Proof.
  apply (@forward_batch_independent Z _
           (NonCausalConv1d_init 2 3 3 1 w_ex b_ex)
           (CausalConv1d_init 2 3 3 2 w_ex b_ex)
           (Highway_init 2 3 2 true w_ex b_ex)
           (ramp 2 2 4) (ramp_batch0 2 2 4) 0).
  - reflexivity.
  - cbn. lia.
  - intros c t _ _. reflexivity.
Defined.

Lemma Highway_causal_stack_witness :
  exists z z',
    (y <- Highway_forward (Highway_init 2 3 2 true w_ex b_ex) (ramp 1 2 5) ;;
     Highway_forward (Highway_init 2 2 1 true w_ex b_ex) y) = Ok z /\
    (y <- Highway_forward (Highway_init 2 3 2 true w_ex b_ex)
            (ramp_cut 1 2 5 3) ;;
     Highway_forward (Highway_init 2 2 1 true w_ex b_ex) y) = Ok z' /\
    shape z = (1, 2, 5) /\ shape z' = (1, 2, 5) /\
    forall n c, n < 1 -> c < 2 -> item z n c 2 = item z' n c 2.
Proof.
  apply (@Highway_causal_stack Z _ 2 3 2 2 1 w_ex w_ex b_ex b_ex (ramp 1 2 5)
           (ramp_cut 1 2 5 3) 2); cbn [size0 size1 size2 ramp ramp_cut];
    try reflexivity; try lia.
  intros n c s _ _ Hs. apply ramp_cut_agrees. lia.
Defined.
